(** * Google Maps restaurant scraper: a shallow embedding and its properties

    The development follows [src/selenium/google_maps_scraper.py]: the data
    model ([Restaurant]), the parsing helpers, the scroll loop, the candidate
    collector, the detail crawler, the ranking ([sort_results]), the summary
    row of [export_to_excel] and the control flow of [main].

    The browser is the environment.  What it answers to each Selenium call is
    an input of the model: the number of cards each poll of the feed reports,
    the anchors rendered when the hrefs are collected, and the answer of every
    element lookup on a detail page (an element, or the exception Selenium
    raises).  Python exceptions are an error monad ([result]); the [while]
    loop takes fuel.

    Conventions.  A [string] is a sequence of code points below 256.  A
    Python [float] is a binary64 float, [PrimFloat.float]: its comparisons
    and its arithmetic are the IEEE 754 ones, NaN and the infinities
    included.  [int] is [Z]; [max_results] and the card counts are counts,
    hence [nat]. *)

From Stdlib Require Import ZArith String Ascii List Lia Floats.
From Stdlib Require Import Sorting.Sorted Sorting.Permutation.
From stdpp Require Import base decidable option list sorting strings gmap sets.

Local Open Scope nat_scope.
#[local] Set Warnings "-clear-no-such-hyp".

(** ** Data model *)

(** The dataclass [Restaurant]; [default_restaurant] is [Restaurant()]. *)
Record Restaurant := mkRestaurant {
  name : string;
  address : string;
  phone : string;
  rating : option PrimFloat.float;
  review_count : Z;
  website : string;
  cuisine : string;
  maps_url : string
}.

Definition NA : string := "N/A".

Definition default_restaurant : Restaurant :=
  {| name := NA; address := NA; phone := NA; rating := None;
     review_count := 0%Z; website := NA; cuisine := NA; maps_url := NA |}.

(** Attribute assignment, [restaurant.f = v]. *)
Definition set_name (v : string) (r : Restaurant) : Restaurant :=
  mkRestaurant v (address r) (phone r) (rating r) (review_count r)
    (website r) (cuisine r) (maps_url r).
Definition set_address (v : string) (r : Restaurant) : Restaurant :=
  mkRestaurant (name r) v (phone r) (rating r) (review_count r)
    (website r) (cuisine r) (maps_url r).
Definition set_phone (v : string) (r : Restaurant) : Restaurant :=
  mkRestaurant (name r) (address r) v (rating r) (review_count r)
    (website r) (cuisine r) (maps_url r).
Definition set_rating (v : option PrimFloat.float) (r : Restaurant)
    : Restaurant :=
  mkRestaurant (name r) (address r) (phone r) v (review_count r)
    (website r) (cuisine r) (maps_url r).
Definition set_review_count (v : Z) (r : Restaurant) : Restaurant :=
  mkRestaurant (name r) (address r) (phone r) (rating r) v
    (website r) (cuisine r) (maps_url r).
Definition set_website (v : string) (r : Restaurant) : Restaurant :=
  mkRestaurant (name r) (address r) (phone r) (rating r) (review_count r)
    v (cuisine r) (maps_url r).
Definition set_cuisine (v : string) (r : Restaurant) : Restaurant :=
  mkRestaurant (name r) (address r) (phone r) (rating r) (review_count r)
    (website r) v (maps_url r).
Definition set_maps_url (v : string) (r : Restaurant) : Restaurant :=
  mkRestaurant (name r) (address r) (phone r) (rating r) (review_count r)
    (website r) (cuisine r) v.

(** Configuration constants of the module. *)
Definition MAX_RESULTS : nat := 60.
Definition OUTPUT_FILE : string := "nyc_restaurants.xlsx".

(** ** Exceptions *)

(** The Selenium exceptions the scraper names, and one constructor for every
    other exception a driver call can raise. *)
Inductive exn :=
  | NoSuchElementException
  | TimeoutException
  | StaleElementReferenceException
  | WebDriverException.

Global Instance exn_eq_dec : EqDecision exn.
Proof. solve_decision. Defined.

Inductive result (A : Type) :=
  | Ret (a : A)
  | Raise (e : exn).
Arguments Ret {A} a.
Arguments Raise {A} e.

Global Instance result_ret : MRet result := λ A a, Ret a.
Global Instance result_bind : MBind result := λ A B f m,
  match m with
  | Ret a => f a
  | Raise e => Raise e
  end.

(** [try: body except (e1, ...): handler]. *)
Definition try_except {A} (body : result A) (caught : list exn)
    (handler : result A) : result A :=
  match body with
  | Ret a => Ret a
  | Raise e => if decide (e ∈ caught) then handler else Raise e
  end.

(** ** Scraping helpers *)

(** [str.isspace] on code points below 256. *)
Definition is_space (c : ascii) : bool :=
  let n := nat_of_ascii c in
  ((9 <=? n) && (n <=? 13)) || ((28 <=? n) && (n <=? 32))
  || (n =? 133) || (n =? 160).

Fixpoint lstrip (s : string) : string :=
  match s with
  | EmptyString => EmptyString
  | String c s' => if is_space c then lstrip s' else s
  end.

Fixpoint rstrip (s : string) : string :=
  match s with
  | EmptyString => EmptyString
  | String c s' =>
      match rstrip s' with
      | EmptyString => if is_space c then EmptyString else String c EmptyString
      | t => String c t
      end
  end.

(** [str.strip()]. *)
Definition strip (s : string) : string := rstrip (lstrip s).

(** [raw.replace(",", ".")]. *)
Fixpoint replace_comma (raw : string) : string :=
  match raw with
  | EmptyString => EmptyString
  | String c s => String (if Ascii.eqb c "," then "."%char else c) (replace_comma s)
  end.

(** [\d] on code points below 256: the ten ASCII digits. *)
Definition is_digit (c : ascii) : bool :=
  let n := nat_of_ascii c in (48 <=? n) && (n <=? 57).

(** [re.sub(r"[^\d]", "", raw)]. *)
Fixpoint re_sub_non_digits (raw : string) : string :=
  match raw with
  | EmptyString => EmptyString
  | String c s =>
      if is_digit c then String c (re_sub_non_digits s) else re_sub_non_digits s
  end.

Definition digit_value (c : ascii) : Z := (Z.of_nat (nat_of_ascii c) - 48)%Z.

(** [int(digits)] on a string of ASCII digits, read left to right. *)
Fixpoint int_of_digits (acc : Z) (digits : string) : Z :=
  match digits with
  | EmptyString => acc
  | String c s => int_of_digits (10 * acc + digit_value c)%Z s
  end.

Definition parse_review_count (raw : string) : Z :=
  let digits := re_sub_non_digits raw in
  match digits with
  | EmptyString => 0%Z
  | _ => int_of_digits 0 digits
  end.

(** The value the specification names: the digits [d1 .. dn] of a string,
    read as the decimal numeral [d1 d2 .. dn]. *)
Fixpoint string_digits (raw : string) : list Z :=
  match raw with
  | EmptyString => []
  | String c s =>
      if is_digit c then digit_value c :: string_digits s else string_digits s
  end.

Fixpoint decimal_numeral (ds : list Z) : Z :=
  match ds with
  | [] => 0%Z
  | d :: t => (d * 10 ^ Z.of_nat (length t) + decimal_numeral t)%Z
  end.

(** ** The scroll loop *)

(** The loop variables, and the number of polls of the feed made so far (the
    position in the environment's answers). *)
Record scroll_state := mkScroll {
  last_count : nat;
  stall_counter : nat;
  polls : nat
}.

Definition scroll_init : scroll_state :=
  {| last_count := 0; stall_counter := 0; polls := 0 |}.

(** [while len(results) < max_results and stall_counter < 5]. *)
Definition scroll_cond (results : list Restaurant) (max_results : nat)
    (st : scroll_state) : bool :=
  bool_decide (length results < max_results) && bool_decide (stall_counter st < 5).

(** One iteration: [feed i] is [len(cards)] at poll [i]. *)
Definition scroll_body (feed : nat → nat) (st : scroll_state) : scroll_state :=
  let current_count := feed (polls st) in
  if decide (current_count = last_count st)
  then {| last_count := last_count st;
          stall_counter := stall_counter st + 1;
          polls := S (polls st) |}
  else {| last_count := current_count;
          stall_counter := 0;
          polls := S (polls st) |}.

(** The loop with fuel: [None] when the loop is still running after [fuel]
    iterations, [Some st] when it has left with the variables [st]. *)
Fixpoint scroll_loop (fuel : nat) (feed : nat → nat) (results : list Restaurant)
    (max_results : nat) (st : scroll_state) : option scroll_state :=
  match fuel with
  | 0 => None
  | S fuel' =>
      if scroll_cond results max_results st
      then scroll_loop fuel' feed results max_results (scroll_body feed st)
      else Some st
  end.

(** ** The candidate collector *)

(** [bool(href)] for a string: the empty string is falsy. *)
Definition truthy (s : string) : bool :=
  match s with
  | EmptyString => false
  | String _ _ => true
  end.

(** An anchor is what [a.get_attribute("href")] answers on it: [Ret None]
    when the attribute is missing, [Raise e] when the call raises. *)
Definition anchor : Type := result (option string).

(** The [for a in all_anchors] loop, with its two variables. *)
Fixpoint collect_loop (all_anchors : list anchor) (place_urls : list string)
    (seen : gset string) : result (list string) :=
  match all_anchors with
  | [] => Ret place_urls
  | a :: rest =>
      let step :=
        try_except
          (href ← a;
           match href with
           | Some h =>
               if truthy h && bool_decide (h ∉ seen)
               then Ret (place_urls ++ [h], {[h]} ∪ seen)
               else Ret (place_urls, seen)
           | None => Ret (place_urls, seen)
           end)
          [StaleElementReferenceException]
          (Ret (place_urls, seen)) in
      '(place_urls', seen') ← step;
      collect_loop rest place_urls' seen'
  end.

(** Step 4 up to the slice [place_urls[:max_results]]. *)
Definition collect_place_urls (all_anchors : list anchor) (max_results : nat)
    : result (list string) :=
  place_urls ← collect_loop all_anchors [] ∅;
  Ret (take max_results place_urls).

(** The non-empty hrefs of the anchors that answered, in rendering order. *)
Fixpoint rendered_hrefs (all_anchors : list anchor) : list string :=
  match all_anchors with
  | [] => []
  | Ret (Some h) :: rest =>
      if truthy h then h :: rendered_hrefs rest else rendered_hrefs rest
  | _ :: rest => rendered_hrefs rest
  end.

(** ** The detail crawler *)

(** A located element: what reading [.text] and
    [.get_attribute("aria-label")] answer on it. *)
Record element := mkElement {
  text : result string;
  aria_label : result string
}.

(** [safe_find_text(driver, css_selector, default)]: [driver] is what
    [driver.find_element(By.CSS_SELECTOR, _)] answers for each selector. *)
Definition safe_find_text (driver : string → result element)
    (css_selector : string) (default : string) : result string :=
  try_except
    (el ← driver css_selector; t ← text el;
     Ret (let stripped := strip t in if truthy stripped then stripped else default))
    [NoSuchElementException]
    (Ret default).

(** A detail page, as the driver calls of one loop iteration see it, in the
    order the iteration makes them. *)
Record page := mkPage {
  get : result unit;
  wait_name : result element;
  find_rating : result element;
  find_reviews : result element;
  find_cuisine : result element;
  find_address : result element;
  find_phone : result element;
  find_website : result element
}.

Section Crawler.

(** Python's built-in [float] on a string: [None] is [ValueError]. *)
Variable float : string → option PrimFloat.float.

Definition parse_rating (raw : string) : option PrimFloat.float :=
  float (replace_comma raw).

(** The body of the outer [try] of one iteration, up to [results.append]:
    the seven field blocks in source order. *)
Definition extract_fields (p : page) (restaurant : Restaurant)
    : result Restaurant :=
  _ ← get p;
  restaurant ← try_except
    (name_el ← wait_name p; t ← text name_el;
     Ret (set_name (strip t) restaurant))
    [TimeoutException]
    (Ret (set_name NA restaurant));
  restaurant ← try_except
    (rating_el ← find_rating p; t ← text rating_el;
     Ret (set_rating (parse_rating t) restaurant))
    [NoSuchElementException]
    (Ret (set_rating None restaurant));
  restaurant ← try_except
    (reviews_el ← find_reviews p; l ← aria_label reviews_el;
     Ret (set_review_count (parse_review_count l) restaurant))
    [NoSuchElementException]
    (Ret (set_review_count 0%Z restaurant));
  restaurant ← try_except
    (cuisine_el ← find_cuisine p; t ← text cuisine_el;
     Ret (set_cuisine (strip t) restaurant))
    [NoSuchElementException]
    (Ret (set_cuisine NA restaurant));
  restaurant ← try_except
    (addr_el ← find_address p; t ← text addr_el;
     Ret (set_address (strip t) restaurant))
    [NoSuchElementException]
    (Ret (set_address NA restaurant));
  restaurant ← try_except
    (phone_el ← find_phone p; t ← text phone_el;
     Ret (set_phone (strip t) restaurant))
    [NoSuchElementException]
    (Ret (set_phone NA restaurant));
  restaurant ← try_except
    (web_el ← find_website p; t ← text web_el;
     Ret (set_website (strip t) restaurant))
    [NoSuchElementException]
    (Ret (set_website NA restaurant));
  Ret restaurant.

(** One iteration of [for idx, place_url in enumerate(place_urls)]: the new
    value of [results]. *)
Definition visit (web : string → page) (place_url : string)
    (results : list Restaurant) : result (list Restaurant) :=
  let restaurant := set_maps_url place_url default_restaurant in
  try_except
    (restaurant ← extract_fields (web place_url) restaurant;
     Ret (results ++ [restaurant]))
    [StaleElementReferenceException; TimeoutException]
    (Ret results).

Fixpoint extract_all (web : string → page) (place_urls : list string)
    (results : list Restaurant) : result (list Restaurant) :=
  match place_urls with
  | [] => Ret results
  | place_url :: rest =>
      results' ← visit web place_url results;
      extract_all web rest results'
  end.

(** *** The whole of [scrape_google_maps] *)

Inductive selector :=
  | ById_searchboxinput
  | ByName_q
  | ByCss_input_text
  | ByCss_input_aria_label.

Definition selectors : list selector :=
  [ById_searchboxinput; ByName_q; ByCss_input_text; ByCss_input_aria_label].

(** The browser session: its answer to each wait, poll and lookup.  The
    calls of the source that are not listed (opening the start page, the
    consent button, typing the query, scrolling, [driver.quit()]) are taken
    to succeed. *)
Record browser := mkBrowser {
  wait_search_box : selector → result unit;
  wait_panel : result unit;
  feed : nat → nat;
  all_anchors : list anchor;
  web : string → page
}.

(** [for by, selector in selectors: try ... break except TimeoutException]:
    [Ret None] is [search_box is None] after the loop. *)
Fixpoint find_search_box (b : browser) (sels : list selector)
    : result (option unit) :=
  match sels with
  | [] => Ret None
  | s :: rest =>
      try_except
        (search_box ← wait_search_box b s; Ret (Some search_box))
        [TimeoutException]
        (find_search_box b rest)
  end.

(** [None]: the scroll loop has not left within [fuel] iterations.
    [Some (Raise e)]: [e] leaves the function (after [driver.quit()]).
    Logging and the debugging screenshot are left out. *)
Definition scrape_google_maps (fuel : nat) (b : browser) (query : string)
    (max_results : nat) : option (result (list Restaurant)) :=
  let results : list Restaurant := [] in
  match find_search_box b selectors with
  | Raise e => Some (Raise e)
  | Ret None => Some (Ret results)
  | Ret (Some search_box) =>
      match try_except (panel ← wait_panel b; Ret (Some panel))
              [TimeoutException] (Ret None) with
      | Raise e => Some (Raise e)
      | Ret None => Some (Ret results)
      | Ret (Some panel) =>
          match scroll_loop fuel (feed b) results max_results scroll_init with
          | None => None
          | Some _ =>
              Some (place_urls ← collect_place_urls (all_anchors b) max_results;
                    extract_all (web b) place_urls results)
          end
      end
  end.

End Crawler.

(** ** Ranking *)

(** [bool(x)] for a float: false for [0.0] and [-0.0], true for every other
    float, NaN included. *)
Definition float_truthy (x : PrimFloat.float) : bool := negb (x =? 0)%float.

(** The sort key [(r.rating is not None, r.rating or 0, r.review_count)];
    [r.rating or 0] is the [int] [0] for [None] and for a zero rating, taken
    here as the float [0.0], which compares in the same way. *)
Definition sort_key (r : Restaurant) : bool * PrimFloat.float * Z :=
  (bool_decide (rating r ≠ None),
   match rating r with
   | Some x => if float_truthy x then x else 0%float
   | None => 0%float
   end,
   review_count r).

(** Python's [<] on two such tuples: the first component on which the tuples
    are not [==] decides, by [<].  A NaN is [==] to no float and [<] no
    float.  (Two components that are the same object count as equal; the
    ratings of two records are two objects.) *)
Definition key_lt (a b : bool * PrimFloat.float * Z) : bool :=
  let '(ha, xa, na) := a in
  let '(hb, xb, nb) := b in
  if negb (Bool.eqb ha hb) then negb ha && hb
  else if negb (xa =? xb)%float then (xa <? xb)%float
  else (na <? nb)%Z.

(** [sorted(data, key=key, reverse=reverse)] for a key compared with [lt].
    The built-in sort is stable and calls only [<].  When [<] orders the
    keys consistently, which it does unless a key holds a NaN, every stable
    sort returns the same list, the one of a stable insertion sort; and on a
    list in which no element is less than its predecessor the built-in, like
    the insertion sort, returns the list as it is.  With [reverse=True] the
    list is reversed, sorted, and reversed again, which is how the built-in
    keeps equal keys in their original order. *)
Section Sorted.

Context {A K : Type} (lt : K → K → bool) (key : A → K).

Fixpoint insert_sorted (x : A) (l : list A) : list A :=
  match l with
  | [] => [x]
  | y :: t => if lt (key y) (key x) then y :: insert_sorted x t else x :: l
  end.

Fixpoint stable_sort (l : list A) : list A :=
  match l with
  | [] => []
  | x :: t => insert_sorted x (stable_sort t)
  end.

Definition py_sorted (rev : bool) (data : list A) : list A :=
  if rev then reverse (stable_sort (reverse data)) else stable_sort data.

End Sorted.

Definition sort_results (data : list Restaurant) : list Restaurant :=
  py_sorted key_lt sort_key true data.

(** ** The report *)

Inductive cell :=
  | Blank
  | Text (s : string)
  | Int (z : Z)
  | Float (x : PrimFloat.float).

(** [bool(r.rating)]: [None] and a zero rating are falsy. *)
Definition rating_truthy (r : Restaurant) : bool :=
  match rating r with
  | Some x => float_truthy x
  | None => false
  end.

(** [sum(r.rating for r in data if r.rating)]: the floats are added from
    left to right, starting from 0, each sum rounded to binary64.  (CPython
    3.12 and later also carry a correction for the rounding errors of the
    partial sums; a sum of one or two floats is the same with it.) *)
Definition sum_ratings (data : list Restaurant) : PrimFloat.float :=
  foldl (λ acc r, match rating r with Some x => (acc + x)%float | None => acc end)
    0%float (filter (λ r, rating_truthy r = true) data).

(** [sum(1 for r in data if r.rating)]. *)
Definition count_ratings (data : list Restaurant) : nat :=
  length (filter (λ r, rating_truthy r = true) data).

(** The float of an [int], rounded to the nearest. *)
Definition float_of_int (z : Z) : PrimFloat.float :=
  SF2Prim (binary_normalize prec emax z 0 false).

Definition avg_rating (data : list Restaurant) : PrimFloat.float :=
  (sum_ratings data / float_of_int (Z.of_nat (Nat.max 1 (count_ratings data))))%float.

(** The integer nearest to [m * 2 ^ e * 100], ties to the even one. *)
Definition round_half_even (m : positive) (e : Z) : Z :=
  let num := (Zpos m * 100)%Z in
  if (0 <=? e)%Z then (num * 2 ^ e)%Z
  else
    let den := (2 ^ (- e))%Z in
    let q := (num / den)%Z in
    let r := (num mod den)%Z in
    match (2 * r ?= den)%Z with
    | Lt => q
    | Gt => (q + 1)%Z
    | Eq => if Z.even q then q else (q + 1)%Z
    end.

(** [round(x, 2)]: the float nearest to the decimal with two places that is
    nearest to the exact value of [x], ties to the even digit; a zero, an
    infinity and NaN are returned as they are. *)
Definition round2 (x : PrimFloat.float) : PrimFloat.float :=
  match Prim2SF x with
  | S754_finite s m e =>
      match round_half_even m e with
      | Zpos p =>
          SF2Prim (SFdiv prec emax (S754_finite s p 0) (S754_finite false 100 0))
      | _ => SF2Prim (S754_zero s)
      end
  | _ => x
  end.

Definition headers : list cell :=
  [Text "#"; Text "Name"; Text "Cuisine"; Text "Rating"; Text "Reviews";
   Text "Address"; Text "Phone"; Text "Website"; Text "Google Maps URL"].

Definition data_row (row_idx : nat) (r : Restaurant) : list cell :=
  [Int (Z.of_nat row_idx - 1); Text (name r); Text (cuisine r);
   match rating r with Some x => Float x | None => Text NA end;
   Int (review_count r); Text (address r); Text (phone r);
   Text (website r); Text (maps_url r)].

(** The summary row: columns 1, 2 and 4 are written. *)
Definition summary_row (data : list Restaurant) : list cell :=
  [Text "Total"; Int (Z.of_nat (length data)); Blank;
   Float (round2 (avg_rating data))].

(** The cell values of the sheet [export_to_excel] saves, row by row (styles
    and widths are left out). *)
Definition export_to_excel (data : list Restaurant) : list (list cell) :=
  headers :: imap (λ i r, data_row (i + 2) r) data ++ [summary_row data].

(** The mean the specification names: over the records whose rating is not
    null, with the denominator floored at 1. *)
Definition rated (data : list Restaurant) : list PrimFloat.float :=
  omap rating data.

Definition mean_rating_spec (data : list Restaurant) : PrimFloat.float :=
  (foldl PrimFloat.add 0 (rated data)
   / float_of_int (Z.of_nat (Nat.max 1 (length (rated data)))))%float.

(** ** The entry point *)

(** What a run of [main] does after scraping. *)
Inductive event :=
  | SortCalled (raw_data : list Restaurant)
  | Saved (filename : string) (sheet : list (list cell)).

Definition SEARCH_QUERY : string := "restaurants in New York".

Section Main.

Variable float : string → option PrimFloat.float.

(** [None]: the scroll loop has not left within [fuel] iterations. *)
Definition main (fuel : nat) (b : browser) : option (result (list event)) :=
  match scrape_google_maps float fuel b SEARCH_QUERY MAX_RESULTS with
  | None => None
  | Some (Raise e) => Some (Raise e)
  | Some (Ret raw_data) =>
      match raw_data with
      | [] => Some (Ret [])
      | _ =>
          let sorted_data := sort_results raw_data in
          Some (Ret [SortCalled raw_data; Saved OUTPUT_FILE (export_to_excel sorted_data)])
      end
  end.

End Main.

(** ** Notions the statements use *)

(** The loop variables after [n] iterations of the body. *)
Fixpoint scroll_iter (n : nat) (feed : nat → nat) (st : scroll_state)
    : scroll_state :=
  match n with
  | 0 => st
  | S n' => scroll_iter n' feed (scroll_body feed st)
  end.

(** The count poll [k] is compared with: the count of the poll before it,
    and the initial [last_count = 0] for the first poll. *)
Definition baseline (feed : nat → nat) (k : nat) : nat :=
  match k with
  | 0 => 0
  | S j => feed j
  end.

(** The [k]-th poll (counted from 1) reports a count that differs from its
    baseline; [k = 0] is the start of the loop. *)
Definition changes_at (feed : nat → nat) (k : nat) : Prop :=
  match k with
  | 0 => True
  | S j => feed j ≠ baseline feed j
  end.

(** The anchor answers its [get_attribute] call, or is stale: the two
    outcomes the collecting loop handles. *)
Definition anchor_answers (a : anchor) : Prop :=
  match a with
  | Ret _ => True
  | Raise e => e = StaleElementReferenceException
  end.

(** [u] is seen for the first time at position [p] of [hrefs]. *)
Definition first_seen_at (hrefs : list string) (u : string) (p : nat) : Prop :=
  hrefs !! p = Some u ∧ u ∉ take p hrefs.

(** [urls] lists hrefs in the order in which they are first seen. *)
Definition first_seen_order (hrefs urls : list string) : Prop :=
  ∀ i j u v, i < j → urls !! i = Some u → urls !! j = Some v →
    ∃ p q, p < q ∧ first_seen_at hrefs u p ∧ first_seen_at hrefs v q.

(** The hrefs of a list that are not in [seen] and not seen earlier in the
    list: what the collecting loop appends. *)
Fixpoint unseen (seen : gset string) (hrefs : list string) : list string :=
  match hrefs with
  | [] => []
  | h :: t =>
      if decide (h ∈ seen) then unseen seen t else h :: unseen ({[h]} ∪ seen) t
  end.

(** A detail page on which no call raises anything but the exception its
    own handler names: each field is either absent ([None]) or present with
    some text ([Some t], well formed or not). *)
Record layout := mkLayout {
  name_text : option string;
  rating_text : option string;
  reviews_label : option string;
  cuisine_text : option string;
  address_text : option string;
  phone_text : option string;
  website_text : option string
}.

Definition present (t : string) : result element :=
  Ret {| text := Ret t; aria_label := Ret t |}.

Definition lookup_of (absent : exn) (field : option string) : result element :=
  match field with
  | Some t => present t
  | None => Raise absent
  end.

Definition page_of_layout (l : layout) : page :=
  {| get := Ret ();
     wait_name := lookup_of TimeoutException (name_text l);
     find_rating := lookup_of NoSuchElementException (rating_text l);
     find_reviews := lookup_of NoSuchElementException (reviews_label l);
     find_cuisine := lookup_of NoSuchElementException (cuisine_text l);
     find_address := lookup_of NoSuchElementException (address_text l);
     find_phone := lookup_of NoSuchElementException (phone_text l);
     find_website := lookup_of NoSuchElementException (website_text l) |}.

(** The record of such a page, field by field: the parsed text of the field,
    or the default of the field. *)
Definition record_of_layout (float : string → option PrimFloat.float) (place_url : string)
    (l : layout) : Restaurant :=
  {| name := from_option strip NA (name_text l);
     address := from_option strip NA (address_text l);
     phone := from_option strip NA (phone_text l);
     rating := rating_text l ≫= parse_rating float;
     review_count := from_option parse_review_count 0%Z (reviews_label l);
     website := from_option strip NA (website_text l);
     cuisine := from_option strip NA (cuisine_text l);
     maps_url := place_url |}.

(** What one candidate contributes: its record, or nothing when it is
    skipped.  It reads the page of this candidate only. *)
Definition visit_outcome (float : string → option PrimFloat.float) (web : string → page)
    (place_url : string) : result (option Restaurant) :=
  try_except
    (restaurant ← extract_fields float (web place_url)
                   (set_maps_url place_url default_restaurant);
     Ret (Some restaurant))
    [StaleElementReferenceException; TimeoutException]
    (Ret None).

Definition appended (float : string → option PrimFloat.float) (web : string → page)
    (place_url : string) : option Restaurant :=
  match visit_outcome float web place_url with
  | Ret o => o
  | Raise _ => None
  end.

Definition skipped (float : string → option PrimFloat.float) (web : string → page)
    (place_url : string) : Prop :=
  visit_outcome float web place_url = Ret None.

Global Instance skipped_dec float web place_url :
  Decision (skipped float web place_url).
Proof.
  unfold skipped. destruct (visit_outcome float web place_url) as [[r|]|e].
  - right. discriminate.
  - left. reflexivity.
  - right. discriminate.
Defined.

(** Plain decimal literals ([4], [4.5]): the part of the grammar of [float]
    that the examples below use. *)
Fixpoint all_digits (s : string) : bool :=
  match s with
  | EmptyString => true
  | String c s' => is_digit c && all_digits s'
  end.

Fixpoint split_dot (s : string) : string * string :=
  match s with
  | EmptyString => (EmptyString, EmptyString)
  | String c s' =>
      if Ascii.eqb c "."
      then (EmptyString, s')
      else let '(a, b) := split_dot s' in (String c a, b)
  end.

Definition decimal_literal (s : string) : option PrimFloat.float :=
  let '(whole, frac) := split_dot s in
  if truthy whole && all_digits whole && all_digits frac
  then Some (float_of_int (int_of_digits 0 (whole +:+ frac))
             / float_of_int (10 ^ Z.of_nat (String.length frac)))%float
  else None.

(** Example pages.  [bare_page]: the heading never shows up and no other
    element is found.  [named_page n]: only the heading, with text [n].
    [unreachable_page]: [driver.get] times out. *)
Definition bare_page : page :=
  page_of_layout (mkLayout None None None None None None None).

Definition named_page (n : string) : page :=
  page_of_layout (mkLayout (Some n) None None None None None None).

Definition unreachable_page : page :=
  {| get := Raise TimeoutException;
     wait_name := Raise TimeoutException;
     find_rating := Raise NoSuchElementException;
     find_reviews := Raise NoSuchElementException;
     find_cuisine := Raise NoSuchElementException;
     find_address := Raise NoSuchElementException;
     find_phone := Raise NoSuchElementException;
     find_website := Raise NoSuchElementException |}.

(** Ten candidates; the page of the fourth cannot be reached. *)
Definition ten_urls : list string :=
  ["u01"; "u02"; "u03"; "u04"; "u05"; "u06"; "u07"; "u08"; "u09"; "u10"].

Definition ten_web (place_url : string) : page :=
  if decide (place_url = "u04") then unreachable_page else named_page place_url.

(** Two records are tied when neither sort key is less than the other: the
    sort treats them as equal. *)
Definition tied (a b : Restaurant) : Prop :=
  key_lt (sort_key a) (sort_key b) = false ∧
  key_lt (sort_key b) (sort_key a) = false.

Global Instance tied_dec a b : Decision (tied a b).
Proof. unfold tied. apply _. Defined.

(** The rating of the record is NaN. *)
Definition nan_rating (r : Restaurant) : bool :=
  match rating r with
  | Some x => is_nan x
  | None => false
  end.

(** [a] may stand before [b] in the ranking: a rated record before an
    unrated one; of two rated records, the higher rating, then the higher
    review count; of two unrated records, the higher review count. *)
Definition ranks_before (a b : Restaurant) : Prop :=
  match rating a, rating b with
  | Some xa, Some xb =>
      (xb <? xa)%float = true ∨
      ((xa =? xb)%float = true ∧ (review_count b ≤ review_count a)%Z)
  | Some _, None => True
  | None, Some _ => False
  | None, None => (review_count b ≤ review_count a)%Z
  end.

(** The place of a float that is not NaN in the order of the floats, as a
    list of three integers compared from left to right: the sign class, then
    the exponent and the mantissa, both negated for a negative float. *)
Definition sf_rank (a : spec_float) : list Z :=
  match a with
  | S754_zero _ => [0; 0; 0]%Z
  | S754_infinity false => [2; 0; 0]%Z
  | S754_infinity true => [-2; 0; 0]%Z
  | S754_nan => []
  | S754_finite false m e => [1; e; Zpos m]%Z
  | S754_finite true m e => [-1; - e; Zneg m]%Z
  end.

Definition sf_is_nan (a : spec_float) : bool :=
  match a with
  | S754_nan => true
  | _ => false
  end.

Fixpoint lexcmp (s t : list Z) : comparison :=
  match s, t with
  | x :: s', y :: t' =>
      match (x ?= y)%Z with
      | Eq => lexcmp s' t'
      | c => c
      end
  | _, _ => Eq
  end.

Definition key_rank (k : bool * PrimFloat.float * Z) : list Z :=
  let '(h, x, n) := k in Z.b2z h :: sf_rank (Prim2SF x) ++ [n].

(** The float of the key is not NaN. *)
Definition key_ok (k : bool * PrimFloat.float * Z) : Prop :=
  is_nan (snd (fst k)) = false.

(** Two records, rated 0.0 and 4.0. *)
Definition zero_and_four : list Restaurant :=
  [set_rating (Some 0%float) (set_name "A" default_restaurant);
   set_rating (Some 4%float) (set_name "B" default_restaurant)].

(** Three records, rated 4.0, NaN and 5.0, in this order. *)
Definition rated_4 : Restaurant :=
  set_rating (Some 4%float) (set_name "A" default_restaurant).
Definition rated_nan : Restaurant :=
  set_rating (Some nan) (set_name "N" default_restaurant).
Definition rated_5 : Restaurant :=
  set_rating (Some 5%float) (set_name "B" default_restaurant).
Definition nan_catalog : list Restaurant := [rated_4; rated_nan; rated_5].

(** A session in which none of the four selectors finds the search box. *)
Definition no_search_box : browser :=
  {| wait_search_box := λ _, Raise TimeoutException;
     wait_panel := Ret ();
     feed := λ _, 0;
     all_anchors := [];
     web := λ _, bare_page |}.

(** A string of whitespace only. *)
Fixpoint all_space (s : string) : bool :=
  match s with
  | EmptyString => true
  | String c s' => is_space c && all_space s'
  end.

(** More example sessions.  [broken_page]: [driver.get] raises an exception
    that no handler of the scraper names.  [small_browser]: the search box
    and the panel are found, the feed shows three cards at every poll, three
    anchors are rendered, two of them with the same href, and every detail
    page shows a heading with the url as its text. *)
Definition broken_page : page :=
  {| get := Raise WebDriverException;
     wait_name := Raise TimeoutException;
     find_rating := Raise NoSuchElementException;
     find_reviews := Raise NoSuchElementException;
     find_cuisine := Raise NoSuchElementException;
     find_address := Raise NoSuchElementException;
     find_phone := Raise NoSuchElementException;
     find_website := Raise NoSuchElementException |}.

Definition broken_web (place_url : string) : page :=
  if decide (place_url = "bad") then broken_page else named_page place_url.

Definition small_browser : browser :=
  {| wait_search_box := λ _, Ret ();
     wait_panel := Ret ();
     feed := λ _, 3;
     all_anchors := [Ret (Some "u1"); Ret (Some "u2"); Ret (Some "u1")];
     web := named_page |}.

Definition no_panel : browser :=
  {| wait_search_box := λ _, Ret ();
     wait_panel := Raise TimeoutException;
     feed := λ _, 3;
     all_anchors := [Ret (Some "u1")];
     web := named_page |}.

Definition restless_browser : browser :=
  {| wait_search_box := λ _, Ret ();
     wait_panel := Ret ();
     feed := λ i, S i;
     all_anchors := [Ret (Some "u1")];
     web := named_page |}.


(** What a field block reads: the text, or the exception that the lookup or
    the read raises. *)
Definition block_read (lookup : result element)
    (read : element → result string) : result string :=
  el ← lookup; read el.

Definition text_of (r : result string) : option string :=
  match r with
  | Ret t => Some t
  | Raise _ => None
  end.

(** The exception that leaves a block whose handler names [caught]. *)
Definition escapes (caught : exn) (r : result string) : option exn :=
  match r with
  | Ret _ => None
  | Raise e => if decide (e = caught) then None else Some e
  end.

(** The exceptions a page raises outside the handler of their own block, in
    the order of the calls: the one of [driver.get], then those of the seven
    field blocks. *)
Definition raised (p : page) : list exn :=
  match get p with
  | Ret _ => []
  | Raise e => [e]
  end ++
  omap id
    [escapes TimeoutException (block_read (wait_name p) text);
     escapes NoSuchElementException (block_read (find_rating p) text);
     escapes NoSuchElementException (block_read (find_reviews p) aria_label);
     escapes NoSuchElementException (block_read (find_cuisine p) text);
     escapes NoSuchElementException (block_read (find_address p) text);
     escapes NoSuchElementException (block_read (find_phone p) text);
     escapes NoSuchElementException (block_read (find_website p) text)].

(** What the field blocks read on a page, field by field. *)
Definition page_layout (p : page) : layout :=
  {| name_text := text_of (block_read (wait_name p) text);
     rating_text := text_of (block_read (find_rating p) text);
     reviews_label := text_of (block_read (find_reviews p) aria_label);
     cuisine_text := text_of (block_read (find_cuisine p) text);
     address_text := text_of (block_read (find_address p) text);
     phone_text := text_of (block_read (find_phone p) text);
     website_text := text_of (block_read (find_website p) text) |}.

(** The item fails: its page raises an exception outside the field
    handlers.  The failure is of the classified kind when every such
    exception is one of the two the crawl loop names. *)
Definition item_fails (p : page) : Prop := raised p ≠ [].

Definition failures_classified (p : page) : Prop :=
  Forall (λ e, e ∈ [StaleElementReferenceException; TimeoutException])
    (raised p).

Global Instance item_fails_dec p : Decision (item_fails p).
Proof. unfold item_fails. apply _. Defined.

Global Instance failures_classified_dec p : Decision (failures_classified p).
Proof. unfold failures_classified. apply _. Defined.

(** The record a candidate contributes, read off its page: none when the
    item fails. *)
Definition page_record (float : string → option PrimFloat.float)
    (web : string → page) (place_url : string) : option Restaurant :=
  if decide (item_fails (web place_url)) then None
  else Some (record_of_layout float place_url (page_layout (web place_url))).

(** A session whose third candidate has a page that [driver.get] cannot
    open, for a reason other than a timeout. *)
Definition broken_browser : browser :=
  {| wait_search_box := λ _, Ret ();
     wait_panel := Ret ();
     feed := λ _, 4;
     all_anchors := [Ret (Some "u1"); Ret (Some "u2"); Ret (Some "bad");
                     Ret (Some "u3")];
     web := broken_web |}.

(** * Properties *)

(** ** The scroll loop *)

Section ScrollLoop.

Context (feed : nat → nat) (results : list Restaurant) (max_results : nat).

Lemma scroll_iter_succ n st :
  scroll_iter (S n) feed st = scroll_body feed (scroll_iter n feed st).
Proof.
  revert st. induction n as [|n IH]; intros st; [done|].
  change (scroll_iter (S (S n)) feed st)
    with (scroll_iter (S n) feed (scroll_body feed st)).
  by rewrite IH.
Qed.

Lemma scroll_iter_polls n st : polls (scroll_iter n feed st) = polls st + n.
Proof.
  induction n as [|n IH]; [simpl; lia|].
  rewrite scroll_iter_succ. unfold scroll_body.
  case_decide; simpl; lia.
Qed.

(** The loop is still running on [fuel] iterations exactly when the
    condition holds before each of them. *)
Lemma scroll_loop_running fuel st :
  scroll_loop fuel feed results max_results st = None ↔
  ∀ j, j < fuel →
    scroll_cond results max_results (scroll_iter j feed st) = true.
Proof.
  revert st. induction fuel as [|fuel IH]; intros st; simpl.
  - split; [intros _ j Hj; lia | done].
  - destruct (scroll_cond results max_results st) eqn:Hc.
    + rewrite IH. split.
      * intros H [|j] Hj; [done|]. apply H. lia.
      * intros H j Hj. apply (H (S j)). lia.
    + split; [done|]. intros H. specialize (H 0). simpl in H.
      rewrite Hc in H. discriminate H. lia.
Qed.


(** [last_count] is the count of the latest poll. *)
Lemma scroll_iter_last_count n :
  last_count (scroll_iter n feed scroll_init) = baseline feed n.
Proof.
  destruct n as [|n]; [done|].
  rewrite scroll_iter_succ. unfold scroll_body.
  rewrite scroll_iter_polls. simpl.
  case_decide as Heq; simpl; [by rewrite <- Heq | done].
Qed.

(** A poll that changes the count resets the stall counter. *)
Lemma scroll_iter_change k :
  changes_at feed k →
  scroll_iter k feed scroll_init =
    {| last_count := baseline feed k; stall_counter := 0; polls := k |}.
Proof.
  destruct k as [|k]; [done|]. intros Hne. simpl in Hne.
  rewrite scroll_iter_succ. unfold scroll_body.
  rewrite scroll_iter_polls, scroll_iter_last_count.
  change (polls scroll_init + k) with k.
  case_decide; [done|]. done.
Qed.


(** A feed that changes at every poll never stalls. *)
Lemma scroll_loop_restless fuel :
  length results < max_results →
  (∀ k, changes_at feed k) →
  scroll_loop fuel feed results max_results scroll_init = None.
Proof.
  intros Hmax Hch. apply scroll_loop_running. intros j _.
  rewrite (scroll_iter_change j (Hch j)).
  unfold scroll_cond.
  apply andb_true_intro; split; apply bool_decide_eq_true_2; simpl; lia.
Qed.

End ScrollLoop.

(** C1 (the code departs from the claim): the loop condition tests
    [len(results)], and [results] is still empty while the loop runs, so the
    number of cards is never compared with [max_results].  With
    [max_results = 60] and a feed that shows 100 cards at every poll, the
    loop is still running after the first poll has measured 100 cards and
    leaves only after the sixth poll, when the stall counter is 5; on a feed
    that grows at every poll (100, 101, 102, ...) it never leaves. *)
Theorem scroll_loop_never_tests_card_count :
  scroll_loop 6 (λ _, 100) [] MAX_RESULTS scroll_init = None ∧
  scroll_loop 7 (λ _, 100) [] MAX_RESULTS scroll_init =
    Some {| last_count := 100; stall_counter := 5; polls := 6 |} ∧
  (∀ fuel, scroll_loop fuel (λ i, 100 + i) [] MAX_RESULTS scroll_init = None).
Proof.
  split; [done|]. split; [done|].
  intros fuel. apply scroll_loop_restless; [simpl; unfold MAX_RESULTS; lia|].
  intros [|[|k]]; simpl; lia.
Qed.





(** ** Parsing the review count *)

Lemma int_of_digits_numeral raw acc :
  int_of_digits acc (re_sub_non_digits raw) =
    (acc * 10 ^ Z.of_nat (length (string_digits raw))
     + decimal_numeral (string_digits raw))%Z.
Proof.
  revert acc. induction raw as [|c s IH]; intros acc; simpl.
  - lia.
  - destruct (is_digit c); simpl; [|apply IH].
    rewrite IH, Nat2Z.inj_succ, Z.pow_succ_r by lia. lia.
Qed.

Lemma string_digits_nil raw :
  string_digits raw = [] → re_sub_non_digits raw = EmptyString.
Proof.
  induction raw as [|c s IH]; simpl; [done|].
  destruct (is_digit c); [done | exact IH].
Qed.

(** C9: [parse_review_count] returns the decimal numeral made of the digit
    characters of its argument, in order, and 0 when there is none;
    ["(1,234)"] gives 1234 and ["no reviews"] gives 0. *)
Theorem parse_review_count_digits :
  (∀ raw, parse_review_count raw = decimal_numeral (string_digits raw)) ∧
  (∀ raw, string_digits raw = [] → parse_review_count raw = 0%Z) ∧
  parse_review_count "(1,234)" = 1234%Z ∧
  parse_review_count "no reviews" = 0%Z.
Proof.
  split; [|split; [|done]].
  - intros raw. unfold parse_review_count.
    pose proof (int_of_digits_numeral raw 0) as H.
    destruct (re_sub_non_digits raw) eqn:Hd.
    + simpl in H. lia.
    + rewrite H. lia.
  - intros raw Hnil. unfold parse_review_count.
    by rewrite (string_digits_nil raw Hnil).
Qed.

(** ** The candidate collector *)

Lemma unseen_elem_of seen hrefs h :
  h ∈ unseen seen hrefs ↔ h ∈ hrefs ∧ h ∉ seen.
Proof.
  revert seen. induction hrefs as [|x t IH]; intros seen; simpl.
  - rewrite elem_of_nil. tauto.
  - case_decide as Hx.
    + rewrite IH, elem_of_cons. split; [tauto|].
      intros [[->|?] ?]; tauto.
    + rewrite !elem_of_cons, IH. split.
      * intros [->|[? Hn]]; [tauto|]. split; [tauto|]. set_solver.
      * intros [[->|?] ?]; [tauto|].
        destruct (decide (h = x)) as [->|Hne]; [tauto|]. right. set_solver.
Qed.

Lemma unseen_NoDup seen hrefs : NoDup (unseen seen hrefs).
Proof.
  revert seen. induction hrefs as [|x t IH]; intros seen; simpl.
  - constructor.
  - case_decide; [apply IH|].
    apply NoDup_cons. split; [|apply IH].
    rewrite unseen_elem_of. set_solver.
Qed.

Lemma first_seen_exists (hrefs : list string) u :
  u ∈ hrefs → ∃ p, first_seen_at hrefs u p.
Proof.
  induction hrefs as [|x t IH]; [by rewrite elem_of_nil|].
  destruct (decide (u = x)) as [->|Hne].
  - intros _. exists 0. split; [done|]. simpl. apply not_elem_of_nil.
  - rewrite elem_of_cons. intros [?|Hin]; [done|].
    destruct (IH Hin) as (p & Hp & Hfresh).
    exists (S p). split; [done|]. simpl. rewrite elem_of_cons. tauto.
Qed.

Lemma first_seen_at_cons (t : list string) x u p :
  u ≠ x → first_seen_at t u p → first_seen_at (x :: t) u (S p).
Proof.
  intros Hne [Hp Hfresh]. split; [done|].
  simpl. rewrite elem_of_cons. tauto.
Qed.

Lemma unseen_first_seen_order seen hrefs :
  first_seen_order hrefs (unseen seen hrefs).
Proof.
  revert seen. induction hrefs as [|x t IH]; intros seen i j u v Hij Hu Hv.
  - simpl in Hu. by rewrite lookup_nil in Hu.
  - simpl in Hu, Hv. case_decide as Hx.
    + destruct (IH seen i j u v Hij Hu Hv) as (p & q & Hpq & Hp & Hq).
      assert (u ∈ unseen seen t) as Hu' by (eapply list_elem_of_lookup_2; done).
      assert (v ∈ unseen seen t) as Hv' by (eapply list_elem_of_lookup_2; done).
      apply unseen_elem_of in Hu', Hv'.
      exists (S p), (S q). split; [lia|].
      split; apply first_seen_at_cons; try done; set_solver.
    + destruct j as [|j]; [lia|]. simpl in Hv.
      assert (v ∈ unseen ({[x]} ∪ seen) t) as Hv'
        by (eapply list_elem_of_lookup_2; done).
      apply unseen_elem_of in Hv'. destruct Hv' as [Hvt Hvx].
      destruct i as [|i].
      * injection Hu as <-.
        destruct (first_seen_exists t v Hvt) as (q & Hq).
        exists 0, (S q). split; [lia|]. split.
        -- split; [done|]. simpl. apply not_elem_of_nil.
        -- apply first_seen_at_cons; [set_solver | done].
      * simpl in Hu.
        destruct (IH ({[x]} ∪ seen) i j u v ltac:(lia) Hu Hv)
          as (p & q & Hpq & Hp & Hq).
        assert (u ∈ unseen ({[x]} ∪ seen) t) as Hu'
          by (eapply list_elem_of_lookup_2; done).
        apply unseen_elem_of in Hu'.
        exists (S p), (S q). split; [lia|].
        split; apply first_seen_at_cons; try done; set_solver.
Qed.

(** The loop appends the unseen hrefs to [place_urls]. *)
Lemma collect_loop_unseen all_anchors place_urls seen :
  Forall anchor_answers all_anchors →
  collect_loop all_anchors place_urls seen =
    Ret (place_urls ++ unseen seen (rendered_hrefs all_anchors)).
Proof.
  intros Hall. revert place_urls seen.
  induction Hall as [|a rest Ha _ IH]; intros place_urls seen; simpl.
  - by rewrite app_nil_r.
  - destruct a as [[h|]|e]; simpl.
    + destruct (truthy h); simpl; [|apply IH].
      case_bool_decide as Hseen; simpl.
      * case_decide; [done|]. by rewrite IH, <- app_assoc.
      * case_decide; [apply IH | done].
    + apply IH.
    + simpl in Ha. subst e. simpl. apply IH.
Qed.

Lemma first_seen_order_take hrefs urls n :
  first_seen_order hrefs urls → first_seen_order hrefs (take n urls).
Proof.
  intros Hord i j u v Hij Hu Hv.
  apply lookup_take_Some in Hu as [Hu _], Hv as [Hv _].
  by apply (Hord i j).
Qed.

(** C5: when every anchor answers or is stale, the collector returns the
    first [max_results] entries of the list [all_urls] of all rendered hrefs
    without repetition: the duplicates are removed before the slice is taken.
    The returned urls are pairwise distinct, are rendered hrefs, come in the
    order in which the hrefs are first seen, and are at most [max_results]. *)
Theorem collect_place_urls_distinct_first_seen
    (all_anchors : list anchor) (max_results : nat) :
  Forall anchor_answers all_anchors →
  ∃ all_urls,
    collect_loop all_anchors [] ∅ = Ret all_urls ∧
    NoDup all_urls ∧
    (∀ h, h ∈ all_urls ↔ h ∈ rendered_hrefs all_anchors) ∧
    first_seen_order (rendered_hrefs all_anchors) all_urls ∧
    collect_place_urls all_anchors max_results = Ret (take max_results all_urls) ∧
    NoDup (take max_results all_urls) ∧
    first_seen_order (rendered_hrefs all_anchors) (take max_results all_urls) ∧
    length (take max_results all_urls) ≤ max_results.
Proof.
  intros Hall. exists (unseen ∅ (rendered_hrefs all_anchors)).
  pose proof (collect_loop_unseen all_anchors [] ∅ Hall) as Hloop.
  simpl in Hloop.
  split; [done|]. split; [apply unseen_NoDup|].
  split; [intros h; rewrite unseen_elem_of; set_solver|].
  split; [apply unseen_first_seen_order|].
  split; [unfold collect_place_urls; by rewrite Hloop|].
  split.
  { pose proof (unseen_NoDup ∅ (rendered_hrefs all_anchors)) as Hnd.
    rewrite <- (take_drop max_results) in Hnd.
    by apply NoDup_app in Hnd as [? _]. }
  split; [apply first_seen_order_take, unseen_first_seen_order|].
  rewrite length_take. lia.
Qed.

(** Seven anchors, one stale, one without href, one with an empty href and
    one repeated, with [max_results = 2]. *)
Lemma collect_place_urls_distinct_first_seen_witness :
  ∃ all_urls,
    collect_loop
      [Ret (Some "u1"); Ret (Some "u2"); Raise StaleElementReferenceException;
       Ret (Some "u1"); Ret None; Ret (Some ""); Ret (Some "u3")] [] ∅
      = Ret all_urls ∧
    NoDup all_urls ∧
    (∀ h, h ∈ all_urls ↔ h ∈ ["u1"; "u2"; "u1"; "u3"]) ∧
    first_seen_order ["u1"; "u2"; "u1"; "u3"] all_urls ∧
    collect_place_urls
      [Ret (Some "u1"); Ret (Some "u2"); Raise StaleElementReferenceException;
       Ret (Some "u1"); Ret None; Ret (Some ""); Ret (Some "u3")] 2
      = Ret (take 2 all_urls) ∧
    NoDup (take 2 all_urls) ∧
    first_seen_order ["u1"; "u2"; "u1"; "u3"] (take 2 all_urls) ∧
    length (take 2 all_urls) ≤ 2.
Proof.
  apply (collect_place_urls_distinct_first_seen
    [Ret (Some "u1"); Ret (Some "u2"); Raise StaleElementReferenceException;
     Ret (Some "u1"); Ret None; Ret (Some ""); Ret (Some "u3")] 2).
  repeat constructor.
Defined.

(** ** The detail crawler *)

Section CrawlerFacts.

Variable float : string → option PrimFloat.float.

Lemma bind_Ret_inv {A B} (m : result A) (k : A → result B) (b : B) :
  m ≫= k = Ret b → ∃ a, m = Ret a ∧ k a = Ret b.
Proof. destruct m as [a|e]; [by exists a | done]. Qed.

(** One field block: the field receives the parsed text of its element, or
    its default. *)
Lemma field_block_inv {V} (find : result element)
    (read : element → result string) (parse : string → V)
    (caught : list exn) (default : V)
    (set : V → Restaurant → Restaurant) (r r' : Restaurant) :
  try_except (el ← find; t ← read el; Ret (set (parse t) r))
    caught (Ret (set default r)) = Ret r' →
  ∃ v, r' = set v r ∧
    (v = default ∨ ∃ el t, find = Ret el ∧ read el = Ret t ∧ v = parse t).
Proof.
  destruct find as [el|e]; simpl.
  - destruct (read el) as [t|e] eqn:Hread; simpl.
    + intros [= <-]. exists (parse t). split; [done|]. right. by exists el, t.
    + case_decide; [|done]. intros [= <-]. exists default. tauto.
  - case_decide; [|done]. intros [= <-]. exists default. tauto.
Qed.

(** The field values of a record that [extract_fields] returns. *)
Lemma extract_fields_inv (p : page) (r0 r : Restaurant) :
  extract_fields float p r0 = Ret r →
  (name r = NA ∨
   ∃ el t, wait_name p = Ret el ∧ text el = Ret t ∧ name r = strip t) ∧
  (rating r = None ∨
   ∃ el t, find_rating p = Ret el ∧ text el = Ret t ∧
     rating r = parse_rating float t) ∧
  (review_count r = 0%Z ∨
   ∃ el t, find_reviews p = Ret el ∧ aria_label el = Ret t ∧
     review_count r = parse_review_count t) ∧
  (cuisine r = NA ∨
   ∃ el t, find_cuisine p = Ret el ∧ text el = Ret t ∧ cuisine r = strip t) ∧
  (address r = NA ∨
   ∃ el t, find_address p = Ret el ∧ text el = Ret t ∧ address r = strip t) ∧
  (phone r = NA ∨
   ∃ el t, find_phone p = Ret el ∧ text el = Ret t ∧ phone r = strip t) ∧
  (website r = NA ∨
   ∃ el t, find_website p = Ret el ∧ text el = Ret t ∧ website r = strip t) ∧
  maps_url r = maps_url r0.
Proof.
  unfold extract_fields. intros H.
  apply bind_Ret_inv in H as (_ & _ & H).
  apply bind_Ret_inv in H as (r1 & H1 & H).
  apply bind_Ret_inv in H as (r2 & H2 & H).
  apply bind_Ret_inv in H as (r3 & H3 & H).
  apply bind_Ret_inv in H as (r4 & H4 & H).
  apply bind_Ret_inv in H as (r5 & H5 & H).
  apply bind_Ret_inv in H as (r6 & H6 & H).
  apply bind_Ret_inv in H as (r7 & H7 & H).
  injection H as <-.
  apply (field_block_inv _ text strip) in H1 as (v1 & -> & D1).
  apply (field_block_inv _ text (parse_rating float)) in H2 as (v2 & -> & D2).
  apply (field_block_inv _ aria_label parse_review_count) in H3 as (v3 & -> & D3).
  apply (field_block_inv _ text strip) in H4 as (v4 & -> & D4).
  apply (field_block_inv _ text strip) in H5 as (v5 & -> & D5).
  apply (field_block_inv _ text strip) in H6 as (v6 & -> & D6).
  apply (field_block_inv _ text strip) in H7 as (v7 & -> & D7).
  simpl. repeat split; assumption.
Qed.

Lemma extract_fields_layout (l : layout) (r0 : Restaurant) :
  extract_fields float (page_of_layout l) r0 =
    Ret (record_of_layout float (maps_url r0) l).
Proof.
  destruct l as [[n|] [ra|] [rc|] [cu|] [ad|] [ph|] [w|]]; reflexivity.
Qed.

Lemma visit_outcome_spec web place_url results :
  visit float web place_url results =
    o ← visit_outcome float web place_url;
    Ret (results ++ option_list o).
Proof.
  unfold visit, visit_outcome.
  destruct (extract_fields float (web place_url) _) as [r|e]; simpl; [done|].
  case_decide; simpl; [by rewrite app_nil_r | done].
Qed.

(** The catalog is made of the records of the candidates that are not
    skipped, in the order of the candidates. *)
Lemma extract_all_appended web place_urls results :
  Forall (λ u, ∃ o, visit_outcome float web u = Ret o) place_urls →
  extract_all float web place_urls results =
    Ret (results ++ omap (appended float web) place_urls).
Proof.
  intros Hall. revert results.
  induction Hall as [|u rest [o Ho] _ IH]; intros results; simpl.
  - by rewrite app_nil_r.
  - rewrite visit_outcome_spec. unfold appended at 1. rewrite Ho. simpl.
    rewrite IH, <- app_assoc. by destruct o.
Qed.

End CrawlerFacts.

(** C6: every record that [extract_fields] returns has, in each declared
    field, the parsed text of the element of that field or the default of
    the field.  On a page where each element is absent or present with any
    text, malformed or not, the record is appended, and each of its fields is
    computed from the element of that field alone. *)
Theorem record_complete_fields_independent (float : string → option PrimFloat.float) :
  (∀ p r0 r, extract_fields float p r0 = Ret r →
     (name r = NA ∨
      ∃ el t, wait_name p = Ret el ∧ text el = Ret t ∧ name r = strip t) ∧
     (rating r = None ∨
      ∃ el t, find_rating p = Ret el ∧ text el = Ret t ∧
        rating r = parse_rating float t) ∧
     (review_count r = 0%Z ∨
      ∃ el t, find_reviews p = Ret el ∧ aria_label el = Ret t ∧
        review_count r = parse_review_count t) ∧
     (cuisine r = NA ∨
      ∃ el t, find_cuisine p = Ret el ∧ text el = Ret t ∧ cuisine r = strip t) ∧
     (address r = NA ∨
      ∃ el t, find_address p = Ret el ∧ text el = Ret t ∧ address r = strip t) ∧
     (phone r = NA ∨
      ∃ el t, find_phone p = Ret el ∧ text el = Ret t ∧ phone r = strip t) ∧
     (website r = NA ∨
      ∃ el t, find_website p = Ret el ∧ text el = Ret t ∧ website r = strip t) ∧
     maps_url r = maps_url r0) ∧
  (∀ web place_url results l, web place_url = page_of_layout l →
     visit float web place_url results =
       Ret (results ++ [record_of_layout float place_url l])).
Proof.
  split; [apply extract_fields_inv|].
  intros web place_url results l Hpage.
  unfold visit. rewrite Hpage, extract_fields_layout. reflexivity.
Qed.

(** C3 as stated fails: on [bare_page] the heading never shows up within the
    wait, and the candidate is recorded, with the name ["N/A"]. *)
Lemma name_timeout_is_recorded :
  wait_name bare_page = Raise TimeoutException ∧
  visit decimal_literal (λ _, bare_page) "u01" [] =
    Ret [set_maps_url "u01" default_restaurant] ∧
  extract_all decimal_literal (λ _, bare_page) ["u01"; "u02"] [] =
    Ret [set_maps_url "u01" default_restaurant;
         set_maps_url "u02" default_restaurant].
Proof. repeat split. Qed.

(** C3 (amended): a heading that does not show up within the wait sets the
    name to ["N/A"], and the record is still built: on a page where the other
    elements are absent or present it is appended.  The candidate is skipped,
    with [results] unchanged and the loop going on with the next candidate,
    when [driver.get] times out, and more generally when a
    [TimeoutException] or [StaleElementReferenceException] leaves the field
    blocks. *)
Theorem name_timeout_defaults_navigation_timeout_skips
    (float : string → option PrimFloat.float) (web : string → page) (place_url : string)
    (rest : list string) (results : list Restaurant) :
  (∀ r, wait_name (web place_url) = Raise TimeoutException →
     visit_outcome float web place_url = Ret (Some r) → name r = NA) ∧
  (∀ l, web place_url = page_of_layout l → name_text l = None →
     visit float web place_url results =
       Ret (results ++ [record_of_layout float place_url l]) ∧
     name (record_of_layout float place_url l) = NA) ∧
  (get (web place_url) = Raise TimeoutException →
     visit float web place_url results = Ret results ∧
     extract_all float web (place_url :: rest) results =
       extract_all float web rest results) ∧
  (skipped float web place_url →
     visit float web place_url results = Ret results ∧
     extract_all float web (place_url :: rest) results =
       extract_all float web rest results).
Proof.
  assert (Hskip : skipped float web place_url →
     visit float web place_url results = Ret results ∧
     extract_all float web (place_url :: rest) results =
       extract_all float web rest results).
  { intros Hs. unfold skipped in Hs.
    assert (visit float web place_url results = Ret results) as Hv.
    { rewrite visit_outcome_spec, Hs. simpl. by rewrite app_nil_r. }
    split; [done|]. simpl. by rewrite Hv. }
  split; [|split; [|split]]; [| | |exact Hskip].
  - intros r Hwait Hout. unfold visit_outcome in Hout.
    destruct (extract_fields float (web place_url) _) as [r'|e] eqn:Hex;
      simpl in Hout.
    + injection Hout as ->.
      apply extract_fields_inv in Hex as (Hname & _).
      destruct Hname as [?|(el & t & Hel & _)]; [done|]. congruence.
    + case_decide; discriminate.
  - intros l Hpage Hname. split.
    + unfold visit. rewrite Hpage, extract_fields_layout. reflexivity.
    + simpl. by rewrite Hname.
  - intros Hget. apply Hskip. unfold skipped, visit_outcome, extract_fields.
    by rewrite Hget.
Qed.

Lemma omap_ext_elem_of {A B} (f g : A → option B) (l : list A) :
  (∀ x, x ∈ l → f x = g x) → omap f l = omap g l.
Proof.
  induction l as [|x t IH]; intros Hfg; [done|].
  csimpl. rewrite (Hfg x) by apply list_elem_of_here.
  rewrite IH; [done|]. intros y Hy. apply Hfg. by apply list_elem_of_further.
Qed.

(** One field block, evaluated: the exception that leaves it, or the
    restaurant with the field set from what the block read. *)
Lemma block_eval {V} (lookup : result element)
    (read : element → result string) (parse : string → V)
    (caught : exn) (default : V)
    (set : V → Restaurant → Restaurant) (r : Restaurant) :
  try_except (el ← lookup; t ← read el; Ret (set (parse t) r))
    [caught] (Ret (set default r)) =
  match escapes caught (block_read lookup read) with
  | Some e => Raise e
  | None =>
      Ret (set (from_option parse default (text_of (block_read lookup read))) r)
  end.
Proof.
  unfold block_read. destruct lookup as [el|e]; simpl.
  - destruct (read el) as [t|e]; simpl; [done|].
    case_decide as Hin; case_decide as Heq; try done.
    + by destruct Heq; apply list_elem_of_singleton in Hin.
    + destruct Hin. by apply list_elem_of_singleton.
  - case_decide as Hin; case_decide as Heq; try done.
    + by destruct Heq; apply list_elem_of_singleton in Hin.
    + destruct Hin. by apply list_elem_of_singleton.
Qed.

(** [extract_fields] in terms of the page: the first exception raised
    outside a field handler, or the record of what the blocks read. *)
Lemma extract_fields_raised float (p : page) (r0 : Restaurant) :
  extract_fields float p r0 =
    match raised p with
    | [] => Ret (record_of_layout float (maps_url r0) (page_layout p))
    | e :: _ => Raise e
    end.
Proof.
  unfold extract_fields, raised, page_layout.
  destruct (get p) as [[]|e]; [|done]. simpl.
  rewrite (block_eval (wait_name p) text strip).
  destruct (escapes _ (block_read (wait_name p) text)); [done|]. simpl.
  rewrite (block_eval (find_rating p) text (parse_rating float)).
  destruct (escapes _ (block_read (find_rating p) text)); [done|]. simpl.
  rewrite (block_eval (find_reviews p) aria_label parse_review_count).
  destruct (escapes _ (block_read (find_reviews p) aria_label)); [done|]. simpl.
  rewrite (block_eval (find_cuisine p) text strip).
  destruct (escapes _ (block_read (find_cuisine p) text)); [done|]. simpl.
  rewrite (block_eval (find_address p) text strip).
  destruct (escapes _ (block_read (find_address p) text)); [done|]. simpl.
  rewrite (block_eval (find_phone p) text strip).
  destruct (escapes _ (block_read (find_phone p) text)); [done|]. simpl.
  rewrite (block_eval (find_website p) text strip).
  destruct (escapes _ (block_read (find_website p) text)); [done|]. simpl.
  unfold record_of_layout. simpl.
  by destruct (text_of (block_read (find_rating p) text)).
Qed.

Lemma visit_outcome_raised float web place_url :
  visit_outcome float web place_url =
    match raised (web place_url) with
    | [] => Ret (page_record float web place_url)
    | e :: _ =>
        if decide (e ∈ [StaleElementReferenceException; TimeoutException])
        then Ret (page_record float web place_url) else Raise e
    end.
Proof.
  unfold visit_outcome, page_record, item_fails.
  rewrite extract_fields_raised.
  case_decide as Hd; destruct (raised (web place_url)) as [|e rest];
    simpl; done.
Qed.

Lemma visit_outcome_classified float web place_url :
  failures_classified (web place_url) →
  visit_outcome float web place_url = Ret (page_record float web place_url).
Proof.
  unfold failures_classified. rewrite visit_outcome_raised.
  destruct (raised (web place_url)) as [|e rest]; [done|].
  intros H. apply Forall_cons in H as [He _]. by rewrite decide_True.
Qed.

(** C7 as stated fails: a failure on one candidate can end the run.  When
    [driver.get] raises a [WebDriverException] on the third of four
    candidates, the crawl raises it, [scrape_google_maps] and [main] raise
    it, and the records of the first two candidates are lost with it;
    without that candidate the crawl returns three records. *)
Lemma unclassified_failure_ends_run :
  extract_all decimal_literal broken_web ["u1"; "u2"; "bad"; "u3"] [] =
    Raise WebDriverException ∧
  scrape_google_maps decimal_literal 10 broken_browser SEARCH_QUERY MAX_RESULTS =
    Some (Raise WebDriverException) ∧
  main decimal_literal 10 broken_browser = Some (Raise WebDriverException) ∧
  extract_all decimal_literal broken_web ["u1"; "u2"; "u3"] [] =
    Ret (map (λ u, set_name u (set_maps_url u default_restaurant))
           ["u1"; "u2"; "u3"]).
Proof. repeat split; vm_compute; reflexivity. Qed.

(** C7 (amended): a failure of a class the crawl loop names does not end
    the run and does not touch the record of another candidate.  When every
    exception that the pages of the candidates raise outside the field
    handlers is a [TimeoutException] or a [StaleElementReferenceException],
    the run returns a catalog: the records of the candidates whose item does
    not fail, in candidate order, each read off the page of its own
    candidate.  Its length is the number of candidates minus the number of
    failed items, and a failed item leaves the catalog as if its candidate
    were not in the list, whatever its page does. *)
Theorem extract_all_isolates_classified_failures
    (float : string → option PrimFloat.float) (web : string → page)
    (place_urls : list string) :
  Forall (λ u, failures_classified (web u)) place_urls →
  extract_all float web place_urls [] =
    Ret (omap (page_record float web) place_urls) ∧
  length (omap (page_record float web) place_urls) =
    length place_urls - length (filter (λ u, item_fails (web u)) place_urls) ∧
  (∀ web' pre u post, place_urls = pre ++ u :: post → u ∉ pre ++ post →
     item_fails (web u) → (∀ u', u' ≠ u → web' u' = web u') →
     omap (page_record float web) place_urls =
       omap (page_record float web') (pre ++ post)).
Proof.
  intros Hall. split; [|split].
  - assert (Hret : Forall (λ u, ∃ o, visit_outcome float web u = Ret o)
                     place_urls).
    { eapply Forall_impl; [exact Hall|]. intros u Hu.
      eexists. by apply visit_outcome_classified. }
    rewrite (extract_all_appended float web place_urls [] Hret). simpl.
    f_equal. apply omap_ext_elem_of. intros u Hu. unfold appended.
    rewrite Forall_forall in Hall.
    by rewrite (visit_outcome_classified float web u (Hall u Hu)).
  - clear Hall. induction place_urls as [|u t IH]; [done|].
    rewrite filter_cons. csimpl. unfold page_record at 1.
    pose proof (length_filter (λ u, item_fails (web u)) t) as Hle.
    destruct (decide (item_fails (web u))); simpl in *; lia.
  - intros web' pre u post -> Hnotin Hfail Hsame.
    rewrite (omap_app (page_record float web) pre (u :: post)). csimpl.
    unfold page_record at 2.
    rewrite decide_True by done. rewrite <- omap_app.
    apply omap_ext_elem_of. intros u' Hin. unfold page_record.
    rewrite Hsame; [done|]. by intros ->.
Qed.

(** Ten candidates, the fourth of which times out on [driver.get]: nine
    records, the others in their order. *)
Lemma extract_all_isolates_classified_failures_witness :
  extract_all decimal_literal ten_web ten_urls [] =
    Ret (map (λ u, set_name u (set_maps_url u default_restaurant))
           ["u01"; "u02"; "u03"; "u05"; "u06"; "u07"; "u08"; "u09"; "u10"]) ∧
  9 = length ten_urls - length (filter (λ u, item_fails (ten_web u)) ten_urls) ∧
  (∀ web' pre u post, ten_urls = pre ++ u :: post → u ∉ pre ++ post →
     item_fails (ten_web u) → (∀ u', u' ≠ u → web' u' = ten_web u') →
     omap (page_record decimal_literal ten_web) ten_urls =
       omap (page_record decimal_literal web') (pre ++ post)).
Proof.
  apply (extract_all_isolates_classified_failures decimal_literal ten_web ten_urls).
  repeat (constructor; [vm_compute; repeat constructor|]). constructor.
Defined.

Example ten_candidates_fourth_unreachable :
  extract_all decimal_literal ten_web ten_urls [] =
    Ret (map (λ u, set_name u (set_maps_url u default_restaurant))
           ["u01"; "u02"; "u03"; "u05"; "u06"; "u07"; "u08"; "u09"; "u10"]).
Proof. vm_compute. reflexivity. Qed.

(** ** Ranking *)

Section StableSort.

Context {A K : Type} (lt : K → K → bool) (key : A → K) (ok : A → Prop).

Hypothesis lt_asym : ∀ a b, lt a b = true → lt b a = false.
Hypothesis lt_negtrans : ∀ x y z, ok x → ok y → ok z →
  lt (key y) (key x) = false → lt (key z) (key y) = false →
  lt (key z) (key x) = false.

(** [x] is not above [y]. *)
Let not_above (x y : A) : Prop := lt (key y) (key x) = false.
(** [x] and [y] have keys that compare equal. *)
Let same_key (x y : A) : Prop :=
  lt (key x) (key y) = false ∧ lt (key y) (key x) = false.

Local Instance same_key_dec x y : Decision (same_key x y).
Proof. unfold same_key. apply _. Defined.

Lemma insert_sorted_Permutation x l : insert_sorted lt key x l ≡ₚ x :: l.
Proof.
  induction l as [|y t IH]; simpl; [done|].
  destruct (lt (key y) (key x)); [|done].
  rewrite IH. apply Permutation_swap.
Qed.

Lemma stable_sort_Permutation l : stable_sort lt key l ≡ₚ l.
Proof.
  induction l as [|x t IH]; simpl; [done|].
  by rewrite insert_sorted_Permutation, IH.
Qed.

Lemma insert_sorted_sorted x l :
  ok x → Forall ok l →
  StronglySorted not_above l → StronglySorted not_above (insert_sorted lt key x l).
Proof.
  intros Hx. induction l as [|y t IH]; simpl; intros Hok Hs.
  - repeat constructor.
  - apply Forall_cons in Hok as [Hoky Hokt].
    apply StronglySorted_cons in Hs as [Hy Ht].
    destruct (lt (key y) (key x)) eqn:Hyx.
    + apply StronglySorted_cons. split; [|by apply IH].
      rewrite insert_sorted_Permutation. constructor; [|done].
      unfold not_above. by apply lt_asym.
    + apply StronglySorted_cons. split.
      * constructor; [done|].
        rewrite Forall_forall in Hy, Hokt. apply Forall_forall. intros z Hz.
        unfold not_above in *.
        apply (lt_negtrans x y z); auto.
      * by apply StronglySorted_cons.
Qed.

Lemma stable_sort_sorted l :
  Forall ok l → StronglySorted not_above (stable_sort lt key l).
Proof.
  induction l as [|x t IH]; simpl; intros Hok; [constructor|].
  apply Forall_cons in Hok as [Hx Ht].
  apply insert_sorted_sorted; [done | | by apply IH].
  by rewrite stable_sort_Permutation.
Qed.

(** Insertion puts [x] before the elements with the same key. *)
Lemma insert_sorted_filter k x l :
  ok k → ok x → Forall ok l →
  filter (same_key k) (insert_sorted lt key x l) = filter (same_key k) (x :: l).
Proof.
  intros Hk Hx. induction l as [|y t IH]; simpl; intros Hok; [done|].
  apply Forall_cons in Hok as [Hy Ht].
  destruct (lt (key y) (key x)) eqn:Hyx; [|done].
  rewrite filter_cons, IH, !filter_cons by done.
  destruct (decide (same_key k x)) as [[Hkx Hxk]|]; [|done].
  destruct (decide (same_key k y)) as [[Hky Hyk]|]; [|done].
  rewrite (lt_negtrans x k y) in Hyx; done.
Qed.

Lemma stable_sort_filter k l :
  ok k → Forall ok l →
  filter (same_key k) (stable_sort lt key l) = filter (same_key k) l.
Proof.
  intros Hk. induction l as [|x t IH]; simpl; intros Hok; [done|].
  apply Forall_cons in Hok as [Hx Ht].
  rewrite insert_sorted_filter, !filter_cons, IH; try done.
  by rewrite stable_sort_Permutation.
Qed.

Lemma py_sorted_reverse_Permutation l : py_sorted lt key true l ≡ₚ l.
Proof.
  unfold py_sorted.
  by rewrite reverse_Permutation, stable_sort_Permutation, reverse_Permutation.
Qed.

Lemma StronglySorted_reverse (R : relation A) l :
  StronglySorted R l → StronglySorted (flip R) (reverse l).
Proof.
  induction 1 as [|x t Hs IH Hx]; [constructor|].
  rewrite reverse_cons. apply StronglySorted_app. split; [|split; [done|]].
  - intros a b Ha Hb. apply list_elem_of_singleton in Hb as ->.
    rewrite elem_of_reverse in Ha. unfold flip.
    rewrite Forall_forall in Hx. by apply Hx.
  - repeat constructor.
Qed.

Lemma py_sorted_reverse_sorted l :
  Forall ok l → StronglySorted (flip not_above) (py_sorted lt key true l).
Proof.
  intros Hok. apply StronglySorted_reverse, stable_sort_sorted.
  by rewrite reverse_Permutation.
Qed.

Lemma py_sorted_reverse_stable k l :
  ok k → Forall ok l →
  filter (same_key k) (py_sorted lt key true l) = filter (same_key k) l.
Proof.
  intros Hk Hok. unfold py_sorted.
  rewrite filter_reverse, stable_sort_filter, filter_reverse, reverse_involutive;
    [done | done | by rewrite reverse_Permutation].
Qed.




End StableSort.

(** *** The order of the floats *)

Lemma lexcmp_antisym s t : lexcmp t s = CompOpp (lexcmp s t).
Proof.
  revert t. induction s as [|x s IH]; intros [|y t]; simpl; try done.
  rewrite (Z.compare_antisym x y).
  destruct (x ?= y)%Z; simpl; [apply IH | done | done].
Qed.

Lemma lexcmp_refl s : lexcmp s s = Eq.
Proof. induction s as [|x s IH]; simpl; [done|]. by rewrite Z.compare_refl. Qed.

Lemma lexcmp_eq s t : length s = length t → lexcmp s t = Eq → s = t.
Proof.
  revert t. induction s as [|x s IH]; intros [|y t]; simpl; try done.
  intros [= Hlen]. destruct (Z.compare_spec x y) as [->| |]; try done.
  intros H. f_equal. by apply IH.
Qed.

Lemma lexcmp_trans s t u :
  length s = length t → length t = length u →
  lexcmp s t ≠ Gt → lexcmp t u ≠ Gt → lexcmp s u ≠ Gt.
Proof.
  revert t u. induction s as [|x s IH]; intros [|y t] [|z u]; simpl; try done.
  intros [= Hst] [= Htu].
  destruct (Z.compare_spec x y), (Z.compare_spec y z), (Z.compare_spec x z);
    try done; try lia.
  by apply IH.
Qed.

Lemma lexcmp_app s1 s2 t1 t2 :
  length s1 = length t1 →
  lexcmp (s1 ++ s2) (t1 ++ t2) =
    match lexcmp s1 t1 with
    | Eq => lexcmp s2 t2
    | c => c
    end.
Proof.
  revert t1. induction s1 as [|x s IH]; intros [|y t]; simpl; try done.
  intros [= Hlen]. destruct (x ?= y)%Z; [by apply IH | done | done].
Qed.

Lemma sf_rank_length a : sf_is_nan a = false → length (sf_rank a) = 3.
Proof. by destruct a as [[]|[]| |[] m e]. Qed.

(** The comparison of two floats that are not NaN is the comparison of their
    ranks. *)
Lemma SFcompare_rank a b :
  sf_is_nan a = false → sf_is_nan b = false →
  SFcompare a b = Some (lexcmp (sf_rank a) (sf_rank b)).
Proof.
  destruct a as [sa|sa| |sa ma ea], b as [sb|sb| |sb mb eb]; try done;
    intros _ _; try (by destruct sa); try (by destruct sb);
    try (by destruct sa, sb).
  destruct sa, sb; simpl; try done.
  - rewrite Z.compare_opp, (Z.compare_antisym ea eb).
    destruct (ea ?= eb)%Z; simpl; try done.
    change (Pos.compare_cont Eq ma mb) with (ma ?= mb)%positive.
    by destruct (ma ?= mb)%positive.
  - destruct (ea ?= eb)%Z; try done.
    change (Pos.compare_cont Eq ma mb) with (ma ?= mb)%positive.
    by destruct (ma ?= mb)%positive.
Qed.

Lemma SFcompare_nan_l b : SFcompare S754_nan b = None.
Proof. done. Qed.

Lemma SFcompare_nan_r a : SFcompare a S754_nan = None.
Proof. by destruct a as [[]|[]| |[] m e]. Qed.

Lemma is_nan_Prim2SF x : is_nan x = sf_is_nan (Prim2SF x).
Proof.
  unfold is_nan. rewrite FloatAxioms.eqb_spec. unfold SFeqb.
  destruct (sf_is_nan (Prim2SF x)) eqn:Hn.
  - destruct (Prim2SF x); done.
  - by rewrite (SFcompare_rank _ _ Hn Hn), lexcmp_refl.
Qed.

(** A NaN is neither equal to a float nor less or more than a float. *)
Lemma nan_compares x y :
  is_nan x = true ∨ is_nan y = true →
  (x =? y)%float = false ∧ (x <? y)%float = false.
Proof.
  rewrite !is_nan_Prim2SF, FloatAxioms.eqb_spec, FloatAxioms.ltb_spec. unfold SFeqb, SFltb.
  intros [H|H].
  - destruct (Prim2SF x); try done.
  - destruct (Prim2SF y); try done. by rewrite SFcompare_nan_r.
Qed.

Lemma float_compares x y :
  is_nan x = false → is_nan y = false →
  (x =? y)%float =
    match lexcmp (sf_rank (Prim2SF x)) (sf_rank (Prim2SF y)) with
    | Eq => true
    | _ => false
    end ∧
  (x <? y)%float =
    match lexcmp (sf_rank (Prim2SF x)) (sf_rank (Prim2SF y)) with
    | Lt => true
    | _ => false
    end.
Proof.
  rewrite !is_nan_Prim2SF, FloatAxioms.eqb_spec, FloatAxioms.ltb_spec. unfold SFeqb, SFltb.
  intros Hx Hy. by rewrite (SFcompare_rank _ _ Hx Hy).
Qed.

(** *** The order of the sort keys *)

Lemma key_rank_length k : key_ok k → length (key_rank k) = 5.
Proof.
  destruct k as [[h x] n]. unfold key_ok. simpl.
  rewrite is_nan_Prim2SF. intros Hx.
  rewrite length_app, (sf_rank_length _ Hx). done.
Qed.

Lemma key_lt_rank a b :
  key_ok a → key_ok b →
  key_lt a b =
    match lexcmp (key_rank a) (key_rank b) with
    | Lt => true
    | _ => false
    end.
Proof.
  destruct a as [[ha xa] na], b as [[hb xb] nb]. unfold key_ok. simpl.
  intros Ha Hb. destruct (float_compares xa xb Ha Hb) as [-> ->].
  rewrite is_nan_Prim2SF in Ha, Hb.
  rewrite lexcmp_app by (by rewrite !sf_rank_length).
  destruct ha, hb; simpl; try done;
    destruct (lexcmp (sf_rank (Prim2SF xa)) (sf_rank (Prim2SF xb)));
    simpl; try done; unfold Z.ltb; by destruct (na ?= nb)%Z.
Qed.

Lemma key_lt_asym a b : key_lt a b = true → key_lt b a = false.
Proof.
  destruct (is_nan (snd (fst a))) eqn:Ha; [|destruct (is_nan (snd (fst b))) eqn:Hb].
  - destruct a as [[ha xa] na], b as [[hb xb] nb]. simpl in *.
    destruct (nan_compares xa xb (or_introl Ha)) as [-> ->].
    destruct (nan_compares xb xa (or_intror Ha)) as [-> ->].
    by destruct ha, hb.
  - destruct a as [[ha xa] na], b as [[hb xb] nb]. simpl in *.
    destruct (nan_compares xa xb (or_intror Hb)) as [-> ->].
    destruct (nan_compares xb xa (or_introl Hb)) as [-> ->].
    by destruct ha, hb.
  - rewrite (key_lt_rank a b Ha Hb), (key_lt_rank b a Hb Ha).
    rewrite (lexcmp_antisym (key_rank a) (key_rank b)).
    by destruct (lexcmp (key_rank a) (key_rank b)).
Qed.

Lemma key_lt_negtrans a b c :
  key_ok a → key_ok b → key_ok c →
  key_lt b a = false → key_lt c b = false → key_lt c a = false.
Proof.
  intros Ha Hb Hc.
  rewrite (key_lt_rank b a Hb Ha), (key_lt_rank c b Hc Hb), (key_lt_rank c a Hc Ha).
  rewrite (lexcmp_antisym (key_rank a) (key_rank b)).
  rewrite (lexcmp_antisym (key_rank b) (key_rank c)).
  rewrite (lexcmp_antisym (key_rank a) (key_rank c)).
  pose proof (lexcmp_trans (key_rank a) (key_rank b) (key_rank c)) as Ht.
  rewrite !key_rank_length in Ht by done. specialize (Ht eq_refl eq_refl).
  destruct (lexcmp (key_rank a) (key_rank b)),
    (lexcmp (key_rank b) (key_rank c)),
    (lexcmp (key_rank a) (key_rank c)); simpl; try done;
    intros _ _; exfalso; by apply Ht.
Qed.

(** [r.rating or 0] is NaN when the rating is, and has its rank otherwise. *)
Lemma rating_or_zero x :
  is_nan (if float_truthy x then x else 0%float) = is_nan x ∧
  (is_nan x = false →
   sf_rank (Prim2SF (if float_truthy x then x else 0%float)) =
     sf_rank (Prim2SF x)).
Proof.
  unfold float_truthy. destruct (x =? 0)%float eqn:Hz; simpl; [|done].
  destruct (is_nan x) eqn:Hn.
  - destruct (nan_compares x 0 (or_introl Hn)) as [Hf _]. congruence.
  - split; [done|]. intros _.
    destruct (float_compares x 0 Hn eq_refl) as [He _].
    rewrite Hz in He. symmetry. apply lexcmp_eq.
    + rewrite is_nan_Prim2SF in Hn. by rewrite (sf_rank_length _ Hn).
    + by destruct (lexcmp _ _).
Qed.

Lemma sort_key_ok r : nan_rating r = false → key_ok (sort_key r).
Proof.
  unfold nan_rating, key_ok, sort_key. simpl.
  destruct (rating r) as [x|]; [|done].
  intros Hx. by rewrite (proj1 (rating_or_zero x)).
Qed.

(** A record whose key is not below the key of another may stand before it. *)
Lemma key_lt_ranks_before a b :
  nan_rating a = false → nan_rating b = false →
  key_lt (sort_key a) (sort_key b) = false → ranks_before a b.
Proof.
  intros Ha Hb.
  rewrite (key_lt_rank _ _ (sort_key_ok a Ha) (sort_key_ok b Hb)).
  unfold nan_rating in Ha, Hb. unfold sort_key, ranks_before, key_rank.
  destruct (rating a) as [xa|], (rating b) as [xb|]; simpl.
  - rewrite (proj2 (rating_or_zero xa) Ha), (proj2 (rating_or_zero xb) Hb).
    destruct (float_compares xb xa Hb Ha) as [_ ->].
    destruct (float_compares xa xb Ha Hb) as [-> _].
    rewrite is_nan_Prim2SF in Ha, Hb.
    rewrite lexcmp_app by (by rewrite !sf_rank_length).
    rewrite (lexcmp_antisym (sf_rank (Prim2SF xa)) (sf_rank (Prim2SF xb))).
    destruct (lexcmp (sf_rank (Prim2SF xa)) (sf_rank (Prim2SF xb)));
      simpl; try done; [|by left].
    destruct (Z.compare_spec (review_count a) (review_count b));
      try done; intros _; right; split; try done; lia.
  - done.
  - done.
  - destruct (Z.compare_spec (review_count a) (review_count b));
      try done; intros _; lia.
Qed.

Lemma StronglySorted_lookup {A} (R : relation A) (l : list A) i j a b :
  StronglySorted R l → i < j → l !! i = Some a → l !! j = Some b → R a b.
Proof.
  intros Hs Hij Ha Hb. rewrite <- (take_drop j l) in Hs.
  eapply StronglySorted_app_1_elem_of; [exact Hs | |].
  - apply elem_of_take. eauto.
  - apply list_elem_of_lookup. exists 0. by rewrite lookup_drop, Nat.add_0_r.
Qed.

(** C4 as stated fails when a rating is NaN, which [parse_rating] returns
    for the text ["nan"]: no key is less than the key of the NaN record, the
    catalog 4.0, NaN, 5.0 comes back in this order, and the record rated 4.0
    stands before the record rated 5.0. *)
Lemma sort_results_nan_unranked :
  sort_results nan_catalog = [rated_4; rated_nan; rated_5] ∧
  rating rated_4 = Some 4%float ∧ rating rated_5 = Some 5%float ∧
  ¬ ranks_before rated_4 rated_5.
Proof.
  split; [vm_compute; reflexivity|]. split; [done|]. split; [done|].
  unfold ranks_before. simpl. intros [H|[H _]]; vm_compute in H; discriminate.
Qed.

(** C4 (amended): for a catalog in which no rating is NaN, [sort_results]
    returns a permutation of the catalog in which every record that stands
    earlier ranks before every later one: rated records before unrated ones
    whatever the review counts, among rated records the higher rating and
    then the higher review count.  The records tied with any given record
    keep the order they have in the input. *)
Theorem sort_results_ranked_stable (data : list Restaurant) :
  Forall (λ r, nan_rating r = false) data →
  sort_results data ≡ₚ data ∧
  (∀ i j a b, i < j →
     sort_results data !! i = Some a → sort_results data !! j = Some b →
     ranks_before a b) ∧
  (∀ r, nan_rating r = false →
     filter (tied r) (sort_results data) = filter (tied r) data).
Proof.
  intros Hdata.
  assert (Hneg : ∀ x y z : Restaurant,
    nan_rating x = false → nan_rating y = false → nan_rating z = false →
    key_lt (sort_key y) (sort_key x) = false →
    key_lt (sort_key z) (sort_key y) = false →
    key_lt (sort_key z) (sort_key x) = false).
  { intros x y z Hx Hy Hz. apply key_lt_negtrans; by apply sort_key_ok. }
  split; [|split].
  - apply py_sorted_reverse_Permutation.
  - intros i j a b Hij Ha Hb.
    pose proof (py_sorted_reverse_sorted key_lt sort_key
                  (λ r, nan_rating r = false) key_lt_asym Hneg data Hdata) as Hs.
    assert (Hin : ∀ k c, sort_results data !! k = Some c → nan_rating c = false).
    { intros k c Hc. apply list_elem_of_lookup_2 in Hc.
      unfold sort_results in Hc.
      rewrite (py_sorted_reverse_Permutation key_lt sort_key data) in Hc.
      rewrite Forall_forall in Hdata. by apply Hdata. }
    apply key_lt_ranks_before; [by eapply Hin | by eapply Hin |].
    apply (StronglySorted_lookup _ _ i j a b Hs Hij Ha Hb).
  - intros r Hr. unfold sort_results, tied.
    by apply (py_sorted_reverse_stable key_lt sort_key
                (λ r, nan_rating r = false) Hneg).
Qed.

(** A catalog of three records without NaN. *)
Lemma sort_results_ranked_stable_witness :
  sort_results (rated_4 :: zero_and_four) ≡ₚ rated_4 :: zero_and_four ∧
  (∀ i j a b, i < j →
     sort_results (rated_4 :: zero_and_four) !! i = Some a →
     sort_results (rated_4 :: zero_and_four) !! j = Some b →
     ranks_before a b) ∧
  (∀ r, nan_rating r = false →
     filter (tied r) (sort_results (rated_4 :: zero_and_four)) =
       filter (tied r) (rated_4 :: zero_and_four)).
Proof.
  apply (sort_results_ranked_stable (rated_4 :: zero_and_four)).
  repeat constructor.
Defined.

(** ** The summary row *)

Lemma sum_count_rated acc data :
  Forall (λ r, ∀ x, rating r = Some x → float_truthy x = true) data →
  foldl (λ acc r, match rating r with Some x => (acc + x)%float | None => acc end)
    acc (filter (λ r, rating_truthy r = true) data)
    = foldl PrimFloat.add acc (rated data) ∧
  count_ratings data = length (rated data).
Proof.
  intros Hall. revert acc. unfold count_ratings, rated.
  induction Hall as [|r t Hr _ IH]; intros acc; [done|].
  assert (Ht : rating_truthy r = bool_decide (is_Some (rating r))).
  { unfold rating_truthy. destruct (rating r) as [x|]; [|done].
    by rewrite (Hr x). }
  rewrite filter_cons. csimpl.
  destruct (decide (rating_truthy r = true)) as [Hd|Hd]; rewrite Ht in Hd;
    destruct (rating r) as [x|] eqn:Hx; try done; simpl.
  rewrite Hx. by destruct (IH (acc + x)%float) as [-> ->].
Qed.

(** Apart from zero ratings, the mean of the summary row is the mean of the
    specification. *)
Lemma avg_rating_without_zero data :
  Forall (λ r, ∀ x, rating r = Some x → float_truthy x = true) data →
  avg_rating data = mean_rating_spec data.
Proof.
  intros Hall. unfold avg_rating, mean_rating_spec, sum_ratings.
  by destruct (sum_count_rated 0%float data Hall) as [-> ->].
Qed.

(** C8 (the code departs from the claim): the generators of the summary row
    filter on [if r.rating], which drops a rating of 0.0 as well as a missing
    one.  For two records rated 0.0 and 4.0 the summary row shows the mean 4,
    where the mean over the records with a rating is 2; the data row of the
    first record shows its rating 0.0 all the same. *)
Theorem avg_rating_drops_zero_rating :
  avg_rating zero_and_four = 4%float ∧
  mean_rating_spec zero_and_four = 2%float ∧
  count_ratings zero_and_four = 1 ∧
  length (rated zero_and_four) = 2 ∧
  export_to_excel zero_and_four !! 1 ≫= (.!! 3) = Some (Float 0) ∧
  summary_row zero_and_four !! 3 = Some (Float (round2 (avg_rating zero_and_four))) ∧
  round2 (avg_rating zero_and_four) = 4%float.
Proof. repeat split. Qed.

(** ** The entry point *)

Lemma find_search_box_all_timeout b sels :
  (∀ s, wait_search_box b s = Raise TimeoutException) →
  find_search_box b sels = Ret None.
Proof.
  intros Hto. induction sels as [|s rest IH]; [done|].
  simpl. by rewrite Hto.
Qed.

Lemma scrape_no_search_box float fuel b query max_results :
  (∀ s, wait_search_box b s = Raise TimeoutException) →
  scrape_google_maps float fuel b query max_results = Some (Ret []).
Proof.
  intros Hto. unfold scrape_google_maps.
  by rewrite find_search_box_all_timeout.
Qed.

(** C10: when the scrape returns an empty catalog, [main] returns with
    nothing sorted and nothing saved; this is what happens when the search
    box is never found.  A run saves a report only for a catalog that is not
    empty. *)
Theorem main_empty_catalog_no_report
    (float : string → option PrimFloat.float) (fuel : nat) (b : browser) :
  scrape_google_maps float fuel b SEARCH_QUERY MAX_RESULTS = Some (Ret []) →
  main float fuel b = Some (Ret []) ∧
  (∀ events, main float fuel b = Some (Ret events) →
     ∀ filename sheet, Saved filename sheet ∉ events).
Proof.
  intros Hempty. unfold main. rewrite Hempty. split; [done|].
  intros events [= <-] filename sheet. apply not_elem_of_nil.
Qed.

(** The session without a search box. *)
Lemma main_empty_catalog_no_report_witness :
  main decimal_literal 100 no_search_box = Some (Ret []) ∧
  (∀ events, main decimal_literal 100 no_search_box = Some (Ret events) →
     ∀ filename sheet, Saved filename sheet ∉ events).
Proof.
  apply (main_empty_catalog_no_report decimal_literal 100 no_search_box).
  reflexivity.
Defined.

(** A setup failure ends the run with an empty catalog whatever the fuel,
    and a saved report always belongs to a catalog that is not empty. *)
Lemma main_setup_failure float fuel b :
  (∀ s, wait_search_box b s = Raise TimeoutException) →
  main float fuel b = Some (Ret []).
Proof.
  intros Hto. unfold main. by rewrite scrape_no_search_box.
Qed.

Lemma main_saved_report float fuel b events :
  main float fuel b = Some (Ret events) →
  events = [] ∨
  ∃ raw_data, raw_data ≠ [] ∧
    scrape_google_maps float fuel b SEARCH_QUERY MAX_RESULTS = Some (Ret raw_data) ∧
    events = [SortCalled raw_data;
              Saved OUTPUT_FILE (export_to_excel (sort_results raw_data))].
Proof.
  unfold main.
  destruct (scrape_google_maps float fuel b SEARCH_QUERY MAX_RESULTS)
    as [[raw|e]|]; [|done..].
  destruct raw as [|r raw]; intros [= <-]; [by left|].
  right. exists (r :: raw). done.
Qed.

(** * Further properties of the code *)

(** ** The scroll loop: how it leaves *)

Section ScrollExit.

Context (feed : nat → nat) (results : list Restaurant) (max_results : nat).

(** A loop that has left has done so after some number of iterations, with
    the condition true before each of them and false after the last. *)
Lemma scroll_loop_left fuel st st' :
  scroll_loop fuel feed results max_results st = Some st' →
  ∃ n, n < fuel ∧ st' = scroll_iter n feed st ∧
    scroll_cond results max_results st' = false ∧
    ∀ j, j < n → scroll_cond results max_results (scroll_iter j feed st) = true.
Proof.
  revert st. induction fuel as [|fuel IH]; intros st; simpl; [done|].
  destruct (scroll_cond results max_results st) eqn:Hc.
  - intros H. destruct (IH _ H) as (n & Hn & -> & Hstop & Hrun).
    exists (S n). split; [lia|]. split; [done|]. split; [done|].
    intros [|j] Hj; [done|]. apply Hrun. lia.
  - intros [= <-]. exists 0. split; [lia|]. split; [done|]. split; [done|].
    intros j Hj. lia.
Qed.

(** More fuel does not change the outcome. *)
Lemma scroll_loop_more_fuel fuel fuel' st st' :
  scroll_loop fuel feed results max_results st = Some st' → fuel ≤ fuel' →
  scroll_loop fuel' feed results max_results st = Some st'.
Proof.
  revert fuel' st. induction fuel as [|fuel IH]; intros fuel' st; simpl; [done|].
  intros H Hle. destruct fuel' as [|fuel']; [lia|]. simpl.
  destruct (scroll_cond results max_results st); [|done].
  apply (IH fuel'); [done | lia].
Qed.

(** The last [stall_counter] polls all reported [last_count]. *)
Lemma scroll_iter_stalled n :
  stall_counter (scroll_iter n feed scroll_init) ≤ n ∧
  ∀ i, n - stall_counter (scroll_iter n feed scroll_init) ≤ i < n →
    feed i = last_count (scroll_iter n feed scroll_init).
Proof.
  induction n as [|n [IHle IHflat]].
  - simpl. split; [lia|]. intros i Hi. lia.
  - rewrite scroll_iter_succ. unfold scroll_body.
    rewrite scroll_iter_polls. change (polls scroll_init + n) with n.
    case_decide as Heq; simpl.
    + split; [lia|]. intros i Hi.
      destruct (decide (i = n)) as [->|Hne]; [done|].
      apply IHflat. lia.
    + split; [lia|]. intros i Hi. lia.
Qed.

End ScrollExit.

(** X1: with [max_results > 0] the scroll loop leaves in one way only: the
    stall counter is 5, at least five polls were made, and the last five of
    them all reported the count kept in [last_count].  The number of cards
    has no part in it, and more fuel gives the same final state. *)
Theorem scroll_loop_leaves_by_stall_only
    (feed : nat → nat) (max_results fuel : nat) (st : scroll_state) :
  0 < max_results →
  scroll_loop fuel feed [] max_results scroll_init = Some st →
  stall_counter st = 5 ∧ 5 ≤ polls st ∧ polls st < fuel ∧
  (∀ i, polls st - 5 ≤ i < polls st → feed i = last_count st) ∧
  (∀ fuel', fuel ≤ fuel' →
     scroll_loop fuel' feed [] max_results scroll_init = Some st).
Proof.
  intros Hmax Hleft.
  destruct (scroll_loop_left feed [] max_results fuel _ _ Hleft)
    as (n & Hn & -> & Hstop & Hrun).
  destruct (scroll_iter_stalled feed n) as [Hle Hflat].
  assert (Hpolls : polls (scroll_iter n feed scroll_init) = n)
    by (rewrite scroll_iter_polls; done).
  assert (Hge : 5 ≤ stall_counter (scroll_iter n feed scroll_init)).
  { unfold scroll_cond in Hstop. apply andb_false_iff in Hstop as [H|H];
      apply bool_decide_eq_false in H; simpl in H; lia. }
  assert (Hupper : stall_counter (scroll_iter n feed scroll_init) ≤ 5).
  { destruct n as [|m]; [simpl; lia|].
    pose proof (Hrun m ltac:(lia)) as Hc. unfold scroll_cond in Hc.
    apply andb_true_iff in Hc as [_ Hc]. apply bool_decide_eq_true in Hc.
    rewrite scroll_iter_succ. unfold scroll_body. case_decide; simpl; lia. }
  assert (Hfive : stall_counter (scroll_iter n feed scroll_init) = 5) by lia.
  rewrite Hpolls. rewrite Hfive in Hflat, Hle.
  split; [done|]. split; [done|]. split; [done|]. split; [done|].
  intros fuel' Hfuel.
  by apply (scroll_loop_more_fuel feed [] max_results fuel fuel').
Qed.

Lemma scroll_loop_leaves_by_stall_only_witness :
  stall_counter (mkScroll 5 5 6) = 5 ∧ 5 ≤ polls (mkScroll 5 5 6) ∧
  polls (mkScroll 5 5 6) < 7 ∧
  (∀ i, polls (mkScroll 5 5 6) - 5 ≤ i < polls (mkScroll 5 5 6) →
     (λ _ : nat, 5) i = last_count (mkScroll 5 5 6)) ∧
  (∀ fuel', 7 ≤ fuel' →
     scroll_loop fuel' (λ _, 5) [] 60 scroll_init = Some (mkScroll 5 5 6)).
Proof.
  apply (scroll_loop_leaves_by_stall_only (λ _, 5) 60 7 (mkScroll 5 5 6)).
  - lia.
  - reflexivity.
Defined.

(** ** The parsing helpers *)

Lemma parse_review_count_numeral raw :
  parse_review_count raw = decimal_numeral (string_digits raw).
Proof.
  unfold parse_review_count.
  pose proof (int_of_digits_numeral raw 0) as H.
  destruct (re_sub_non_digits raw) eqn:Hd; [simpl in H; lia|].
  rewrite H. lia.
Qed.

Lemma is_digit_value c : is_digit c = true → (0 ≤ digit_value c ≤ 9)%Z.
Proof.
  unfold is_digit, digit_value. intros H.
  apply andb_true_iff in H as [H1 H2].
  apply Nat.leb_le in H1, H2. lia.
Qed.

Lemma decimal_numeral_bounds raw :
  (0 ≤ decimal_numeral (string_digits raw)
     < 10 ^ Z.of_nat (length (string_digits raw)))%Z.
Proof.
  induction raw as [|c s IH]; simpl; [lia|].
  destruct (is_digit c) eqn:Hc; [|exact IH].
  apply is_digit_value in Hc. simpl decimal_numeral. simpl length.
  rewrite Nat2Z.inj_succ, Z.pow_succ_r by lia. nia.
Qed.

Lemma string_digits_app a b :
  string_digits (a +:+ b) = string_digits a ++ string_digits b.
Proof.
  induction a as [|c s IH]; simpl; [done|].
  destruct (is_digit c); simpl; by rewrite IH.
Qed.

Lemma decimal_numeral_app ds es :
  decimal_numeral (ds ++ es) =
    (decimal_numeral ds * 10 ^ Z.of_nat (length es) + decimal_numeral es)%Z.
Proof.
  induction ds as [|d t IH]; simpl; [lia|].
  rewrite IH, length_app, Nat2Z.inj_add, Z.pow_add_r by lia. lia.
Qed.

(** X2: the review count is never negative, and it is below [10 ^ n] for a
    label with [n] digit characters. *)
Theorem parse_review_count_bounds (raw : string) :
  (0 ≤ parse_review_count raw < 10 ^ Z.of_nat (length (string_digits raw)))%Z.
Proof. rewrite parse_review_count_numeral. apply decimal_numeral_bounds. Qed.

(** X3: a character that is not a digit (a thousands separator, a bracket,
    a sign, a decimal point, a letter) has no effect on the review count,
    wherever it stands. *)
Theorem parse_review_count_ignores_non_digit (a b : string) (c : ascii) :
  is_digit c = false →
  parse_review_count (a +:+ String c b) = parse_review_count (a +:+ b).
Proof.
  intros Hc. rewrite !parse_review_count_numeral, !string_digits_app.
  simpl. by rewrite Hc.
Qed.

Lemma parse_review_count_ignores_non_digit_witness :
  parse_review_count ("1" +:+ String "," "234") = parse_review_count ("1" +:+ "234").
Proof.
  apply (parse_review_count_ignores_non_digit "1" "234" ","). reflexivity.
Defined.

(** X4: the count of a concatenation: the digits of the first part are
    shifted left by the number of digits of the second part. *)
Theorem parse_review_count_app (a b : string) :
  parse_review_count (a +:+ b) =
    (parse_review_count a * 10 ^ Z.of_nat (length (string_digits b))
     + parse_review_count b)%Z.
Proof.
  rewrite !parse_review_count_numeral, string_digits_app.
  apply decimal_numeral_app.
Qed.

Lemma replace_comma_app a b :
  replace_comma (a +:+ b) = replace_comma a +:+ replace_comma b.
Proof. induction a as [|c s IH]; simpl; [done|]. by rewrite IH. Qed.

(** X5: [parse_rating] reads a comma as a decimal point: a text with a comma
    and the same text with a point in its place parse to the same rating,
    whatever [float] does with the result. *)
Theorem parse_rating_comma_is_point (float : string → option PrimFloat.float) (a b : string) :
  parse_rating float (a +:+ String "," b) =
    parse_rating float (a +:+ String "." b).
Proof. unfold parse_rating. by rewrite !replace_comma_app. Qed.

(** ** Finding the search box *)

Lemma find_search_box_skips b pre rest :
  Forall (λ s, wait_search_box b s = Raise TimeoutException) pre →
  find_search_box b (pre ++ rest) = find_search_box b rest.
Proof.
  induction 1 as [|s pre Hs _ IH]; [done|]. simpl. by rewrite Hs.
Qed.

(** X6: the selectors are tried in order.  The search box is the answer of
    the first selector that does not time out; an exception other than a
    timeout leaves at once, without trying the later selectors; and the
    search box is missing exactly when all four selectors time out. *)
Theorem find_search_box_first_answer (b : browser) :
  (∀ pre s post box,
     Forall (λ s', wait_search_box b s' = Raise TimeoutException) pre →
     wait_search_box b s = Ret box →
     find_search_box b (pre ++ s :: post) = Ret (Some box)) ∧
  (∀ pre s post e,
     Forall (λ s', wait_search_box b s' = Raise TimeoutException) pre →
     wait_search_box b s = Raise e → e ≠ TimeoutException →
     find_search_box b (pre ++ s :: post) = Raise e) ∧
  (find_search_box b selectors = Ret None ↔
   ∀ s, wait_search_box b s = Raise TimeoutException).
Proof.
  split; [|split].
  - intros pre s post box Hpre Hs.
    rewrite find_search_box_skips by done. simpl. by rewrite Hs.
  - intros pre s post e Hpre Hs He.
    rewrite find_search_box_skips by done. simpl. rewrite Hs. simpl.
    case_decide as Hin; [|done].
    apply list_elem_of_singleton in Hin. done.
  - split.
    + unfold selectors. simpl. intros H s.
      destruct (wait_search_box b ById_searchboxinput) as [|e1] eqn:H1;
        [done|]. simpl in H.
      destruct (decide (e1 ∈ [TimeoutException])) as [Hin1|]; [|done].
      apply list_elem_of_singleton in Hin1 as ->.
      destruct (wait_search_box b ByName_q) as [|e2] eqn:H2; [done|].
      simpl in H.
      destruct (decide (e2 ∈ [TimeoutException])) as [Hin2|]; [|done].
      apply list_elem_of_singleton in Hin2 as ->.
      destruct (wait_search_box b ByCss_input_text) as [|e3] eqn:H3; [done|].
      simpl in H.
      destruct (decide (e3 ∈ [TimeoutException])) as [Hin3|]; [|done].
      apply list_elem_of_singleton in Hin3 as ->.
      destruct (wait_search_box b ByCss_input_aria_label) as [|e4] eqn:H4;
        [done|]. simpl in H.
      destruct (decide (e4 ∈ [TimeoutException])) as [Hin4|]; [|done].
      apply list_elem_of_singleton in Hin4 as ->.
      by destruct s.
    + intros Hall. by apply find_search_box_all_timeout.
Qed.

(** ** The candidate collector: more anchors, enough room *)

Lemma rendered_hrefs_app a1 a2 :
  rendered_hrefs (a1 ++ a2) = rendered_hrefs a1 ++ rendered_hrefs a2.
Proof.
  induction a1 as [|a rest IH]; [done|]. simpl.
  destruct a as [[h|]|e]; [|done..].
  destruct (truthy h); simpl; by rewrite IH.
Qed.

Lemma unseen_app seen l1 l2 :
  unseen seen (l1 ++ l2) =
    unseen seen l1 ++ unseen (list_to_set l1 ∪ seen) l2.
Proof.
  revert seen. induction l1 as [|h t IH]; intros seen; simpl.
  - by rewrite (left_id_L ∅ (∪)).
  - case_decide as Hh.
    + rewrite IH. do 2 f_equal. set_solver.
    + simpl. rewrite IH. do 3 f_equal. set_solver.
Qed.

Lemma unseen_length seen hrefs : length (unseen seen hrefs) ≤ length hrefs.
Proof.
  revert seen. induction hrefs as [|h t IH]; intros seen; simpl; [done|].
  case_decide; simpl.
  - specialize (IH seen). lia.
  - specialize (IH ({[h]} ∪ seen)). lia.
Qed.

(** A loop that returns has met no exception but stale anchors. *)
Lemma collect_loop_answers all_anchors place_urls seen urls :
  collect_loop all_anchors place_urls seen = Ret urls →
  Forall anchor_answers all_anchors.
Proof.
  revert place_urls seen.
  induction all_anchors as [|a rest IH]; intros place_urls seen; [constructor|].
  simpl. destruct a as [[h|]|e]; simpl.
  - destruct (truthy h && bool_decide (h ∉ seen)); simpl;
      intros H; constructor; [done | by eapply IH | done | by eapply IH].
  - intros H; constructor; [done | by eapply IH].
  - case_decide as Hin; simpl; [|done].
    apply list_elem_of_singleton in Hin as ->.
    intros H; constructor; [done | by eapply IH].
Qed.

(** X7: collecting again after more anchors have been rendered extends the
    earlier result: the urls collected from [a1] are a prefix of those
    collected from [a1 ++ a2], before the slice and after it. *)
Theorem collect_place_urls_extends
    (a1 a2 : list anchor) (max_results : nat) :
  Forall anchor_answers (a1 ++ a2) →
  ∃ urls1 urls12,
    collect_place_urls a1 max_results = Ret urls1 ∧
    collect_place_urls (a1 ++ a2) max_results = Ret urls12 ∧
    urls1 `prefix_of` urls12.
Proof.
  intros Hall. pose proof Hall as Hall'. apply Forall_app in Hall' as [H1 _].
  exists (take max_results (unseen ∅ (rendered_hrefs a1))),
         (take max_results (unseen ∅ (rendered_hrefs (a1 ++ a2)))).
  unfold collect_place_urls.
  rewrite (collect_loop_unseen a1 [] ∅ H1).
  rewrite (collect_loop_unseen (a1 ++ a2) [] ∅ Hall).
  split; [done|]. split; [done|].
  rewrite rendered_hrefs_app, unseen_app, take_app.
  by apply prefix_app_r.
Qed.

Lemma collect_place_urls_extends_witness :
  ∃ urls1 urls12,
    collect_place_urls [Ret (Some "u1"); Ret (Some "u2")] 3 = Ret urls1 ∧
    collect_place_urls
      ([Ret (Some "u1"); Ret (Some "u2")] ++ [Ret (Some "u1"); Ret (Some "u3")]) 3
      = Ret urls12 ∧
    urls1 `prefix_of` urls12.
Proof.
  apply (collect_place_urls_extends
    [Ret (Some "u1"); Ret (Some "u2")] [Ret (Some "u1"); Ret (Some "u3")] 3).
  repeat constructor.
Defined.

(** X8: when [max_results] is at least the number of rendered hrefs, the
    slice drops nothing: every rendered href is among the collected urls. *)
Theorem collect_place_urls_keeps_all
    (all_anchors : list anchor) (max_results : nat) :
  Forall anchor_answers all_anchors →
  length (rendered_hrefs all_anchors) ≤ max_results →
  ∃ urls, collect_place_urls all_anchors max_results = Ret urls ∧
    ∀ h, h ∈ urls ↔ h ∈ rendered_hrefs all_anchors.
Proof.
  intros Hall Hlen. exists (unseen ∅ (rendered_hrefs all_anchors)).
  unfold collect_place_urls. rewrite (collect_loop_unseen all_anchors [] ∅ Hall).
  simpl. split.
  - rewrite take_ge; [done|].
    pose proof (unseen_length ∅ (rendered_hrefs all_anchors)). lia.
  - intros h. rewrite unseen_elem_of. set_solver.
Qed.

Lemma collect_place_urls_keeps_all_witness :
  ∃ urls,
    collect_place_urls [Ret (Some "u1"); Ret (Some "u2"); Ret (Some "u1")] 3
      = Ret urls ∧
    ∀ h, h ∈ urls ↔
      h ∈ rendered_hrefs [Ret (Some "u1"); Ret (Some "u2"); Ret (Some "u1")].
Proof.
  apply (collect_place_urls_keeps_all
    [Ret (Some "u1"); Ret (Some "u2"); Ret (Some "u1")] 3).
  - repeat constructor.
  - simpl. lia.
Defined.

(** X9: an exception of [get_attribute] other than a stale element leaves
    the collector: no url is returned, not even those already collected. *)
Theorem collect_place_urls_unhandled
    (before after : list anchor) (e : exn) (max_results : nat) :
  Forall anchor_answers before →
  e ≠ StaleElementReferenceException →
  collect_place_urls (before ++ Raise e :: after) max_results = Raise e.
Proof.
  intros Hbefore He. unfold collect_place_urls.
  assert (∀ place_urls seen,
    collect_loop (before ++ Raise e :: after) place_urls seen = Raise e) as ->;
    [|done].
  induction Hbefore as [|a rest Ha _ IH]; intros place_urls seen; simpl.
  - case_decide as Hin; [|done]. by apply list_elem_of_singleton in Hin.
  - destruct a as [[h|]|e']; simpl.
    + destruct (truthy h && bool_decide (h ∉ seen)); simpl; apply IH.
    + apply IH.
    + simpl in Ha. subst e'. simpl. apply IH.
Qed.

Lemma collect_place_urls_unhandled_witness :
  collect_place_urls
    ([Ret (Some "u1")] ++ Raise WebDriverException :: [Ret (Some "u2")]) 5
    = Raise WebDriverException.
Proof.
  apply (collect_place_urls_unhandled
    [Ret (Some "u1")] [Ret (Some "u2")] WebDriverException 5).
  - repeat constructor.
  - discriminate.
Defined.

(** ** The detail crawler: what the loop keeps, and what ends it *)

Section CrawlerRuns.

Variable float : string → option PrimFloat.float.

Lemma visit_outcome_maps_url web place_url r :
  visit_outcome float web place_url = Ret (Some r) → maps_url r = place_url.
Proof.
  unfold visit_outcome.
  destruct (extract_fields float (web place_url) _) as [r'|e] eqn:Hex; simpl.
  - intros [= <-]. apply extract_fields_inv in Hex.
    by destruct Hex as (_ & _ & _ & _ & _ & _ & _ & ->).
  - case_decide; [|done]. discriminate.
Qed.

Lemma extract_all_app web l1 l2 results :
  extract_all float web (l1 ++ l2) results =
    extract_all float web l1 results ≫= extract_all float web l2.
Proof.
  revert results. induction l1 as [|u t IH]; intros results; [done|].
  simpl. destruct (visit float web u results) as [results'|e]; simpl; [|done].
  apply IH.
Qed.

(** The records the loop appends carry the urls of a sublist of the
    candidates. *)
Lemma extract_all_sublist web place_urls results out :
  extract_all float web place_urls results = Ret out →
  ∃ rs, out = results ++ rs ∧ (maps_url <$> rs) `sublist_of` place_urls.
Proof.
  revert results. induction place_urls as [|u t IH]; intros results; simpl.
  - intros [= <-]. exists []. by rewrite app_nil_r.
  - rewrite visit_outcome_spec.
    destruct (visit_outcome float web u) as [o|e] eqn:Ho; simpl; [|done].
    intros H. destruct (IH _ H) as (rs & -> & Hsub).
    destruct o as [r|]; simpl.
    + exists (r :: rs). rewrite <- app_assoc. split; [done|].
      rewrite fmap_cons, (visit_outcome_maps_url web u r Ho).
      by apply sublist_skip.
    + exists rs. rewrite app_nil_r. split; [done|]. by apply sublist_cons.
Qed.

End CrawlerRuns.

(** X10: the loop only appends.  The records already in [results] stay
    where they are, unchanged, and crawling [l1 ++ l2] is crawling [l1] and
    then [l2] from the catalog reached. *)
Theorem extract_all_appends_only
    (float : string → option PrimFloat.float) (web : string → page) :
  (∀ place_urls results out,
     extract_all float web place_urls results = Ret out →
     results `prefix_of` out) ∧
  (∀ l1 l2 results,
     extract_all float web (l1 ++ l2) results =
       extract_all float web l1 results ≫= extract_all float web l2).
Proof.
  split; [|apply extract_all_app].
  intros place_urls results out H.
  destruct (extract_all_sublist float web place_urls results out H)
    as (rs & -> & _).
  by exists rs.
Qed.

(** X11: an exception that the loop does not classify ends the crawl.  When
    the visit of one candidate raises it, [extract_all] raises it too,
    whatever was collected before and whatever comes after. *)
Theorem extract_all_unclassified_aborts
    (float : string → option PrimFloat.float) (web : string → page)
    (before after : list string) (place_url : string) (e : exn)
    (results : list Restaurant) :
  Forall (λ u, ∃ o, visit_outcome float web u = Ret o) before →
  visit_outcome float web place_url = Raise e →
  extract_all float web (before ++ place_url :: after) results = Raise e.
Proof.
  intros Hbefore He.
  rewrite extract_all_app, (extract_all_appended float web before results Hbefore).
  simpl. rewrite visit_outcome_spec, He. done.
Qed.

(** X12: a catalog that [scrape_google_maps] returns has at most
    [max_results] records; their [maps_url]s are pairwise distinct and are
    hrefs that were rendered. *)
Theorem scrape_catalog_bounded_distinct
    (float : string → option PrimFloat.float) (fuel : nat) (b : browser) (query : string)
    (max_results : nat) (results : list Restaurant) :
  scrape_google_maps float fuel b query max_results = Some (Ret results) →
  length results ≤ max_results ∧
  NoDup (maps_url <$> results) ∧
  (∀ r, r ∈ results → maps_url r ∈ rendered_hrefs (all_anchors b)).
Proof.
  unfold scrape_google_maps.
  assert (Hnil : length (@nil Restaurant) ≤ max_results ∧
    NoDup (maps_url <$> @nil Restaurant) ∧
    (∀ r, r ∈ @nil Restaurant →
       maps_url r ∈ rendered_hrefs (all_anchors b))).
  { split; [simpl; lia|]. split; [constructor|].
    intros r Hr. by apply elem_of_nil in Hr. }
  destruct (find_search_box b selectors) as [[box|]|e]; [| |done].
  2: { by intros [= <-]. }
  destruct (try_except _ _ _) as [[panel|]|e]; [| |done].
  2: { by intros [= <-]. }
  destruct (scroll_loop fuel (feed b) [] max_results scroll_init); [|done].
  unfold collect_place_urls.
  destruct (collect_loop (all_anchors b) [] ∅) as [all_urls|e] eqn:Hloop;
    simpl; [|done].
  intros [= Hex].
  pose proof (collect_loop_answers _ _ _ _ Hloop) as Hall.
  rewrite (collect_loop_unseen _ [] ∅ Hall) in Hloop.
  injection Hloop as <-. simpl in Hex.
  destruct (extract_all_sublist float (web b) _ [] results Hex)
    as (rs & -> & Hsub).
  simpl. clear Hnil.
  assert (Htake : take max_results (unseen ∅ (rendered_hrefs (all_anchors b)))
            `sublist_of` unseen ∅ (rendered_hrefs (all_anchors b)))
    by apply sublist_take.
  split; [|split].
  - apply sublist_length in Hsub.
    rewrite length_fmap, length_take in Hsub. lia.
  - eapply sublist_NoDup; [|exact Hsub].
    eapply sublist_NoDup; [apply unseen_NoDup | exact Htake].
  - intros r Hr.
    assert (maps_url r ∈ unseen ∅ (rendered_hrefs (all_anchors b))) as Hin.
    { eapply elem_of_sublist; [|exact Htake].
      eapply elem_of_sublist; [|exact Hsub].
      by apply list_elem_of_fmap_2. }
    by apply unseen_elem_of in Hin as [? _].
Qed.

Lemma extract_all_unclassified_aborts_witness :
  extract_all decimal_literal broken_web (["u1"; "u2"] ++ "bad" :: ["u3"]) [] =
    Raise WebDriverException.
Proof.
  apply (extract_all_unclassified_aborts decimal_literal broken_web
           ["u1"; "u2"] ["u3"] "bad" WebDriverException []).
  - repeat (constructor; [eexists; vm_compute; reflexivity|]). constructor.
  - reflexivity.
Defined.

Lemma scrape_catalog_bounded_distinct_witness :
  length [set_name "u1" (set_maps_url "u1" default_restaurant);
          set_name "u2" (set_maps_url "u2" default_restaurant)] ≤ 2 ∧
  NoDup (maps_url <$>
           [set_name "u1" (set_maps_url "u1" default_restaurant);
            set_name "u2" (set_maps_url "u2" default_restaurant)]) ∧
  (∀ r, r ∈ [set_name "u1" (set_maps_url "u1" default_restaurant);
             set_name "u2" (set_maps_url "u2" default_restaurant)] →
     maps_url r ∈ rendered_hrefs (all_anchors small_browser)).
Proof.
  apply (scrape_catalog_bounded_distinct decimal_literal 10 small_browser
           "pizza" 2).
  vm_compute. reflexivity.
Defined.

(** ** Setup failures and feeds that never settle *)

(** X13: when the search box is missing, or the results panel does not show
    up, [scrape_google_maps] returns the empty catalog at once: for any fuel,
    without a poll of the feed and without reading an anchor. *)
Theorem scrape_setup_failure_empty
    (float : string → option PrimFloat.float) (fuel : nat) (b : browser) (query : string)
    (max_results : nat) :
  find_search_box b selectors = Ret None ∨
  ((∃ box, find_search_box b selectors = Ret (Some box)) ∧
   wait_panel b = Raise TimeoutException) →
  scrape_google_maps float fuel b query max_results = Some (Ret []).
Proof.
  unfold scrape_google_maps. intros [->|[[box ->] ->]]; done.
Qed.

Lemma scrape_setup_failure_empty_witness :
  scrape_google_maps decimal_literal 0 no_panel "pizza" 60 = Some (Ret []).
Proof.
  apply (scrape_setup_failure_empty decimal_literal 0 no_panel "pizza" 60).
  right. split; [by exists () | reflexivity].
Defined.

(** X14: on a feed whose count changes at every poll the scraper never gets
    past the scroll loop: with [max_results > 0] and the setup done, no
    amount of fuel makes [scrape_google_maps] return. *)
Theorem scrape_restless_feed_never_returns
    (float : string → option PrimFloat.float) (b : browser) (query : string)
    (max_results fuel : nat) :
  0 < max_results →
  (∃ box, find_search_box b selectors = Ret (Some box)) →
  (∃ panel, wait_panel b = Ret panel) →
  (∀ k, changes_at (feed b) k) →
  scrape_google_maps float fuel b query max_results = None.
Proof.
  intros Hmax [box Hbox] [panel Hpanel] Hch.
  unfold scrape_google_maps. rewrite Hbox, Hpanel. simpl.
  by rewrite scroll_loop_restless.
Qed.

Lemma scrape_restless_feed_never_returns_witness :
  scrape_google_maps decimal_literal 1000 restless_browser "pizza" 60 = None.
Proof.
  apply (scrape_restless_feed_never_returns decimal_literal restless_browser
           "pizza" 60 1000).
  - lia.
  - by exists ().
  - by exists ().
  - intros [|[|k]]; simpl; lia.
Defined.

(** ** Blank texts *)

Lemma lstrip_all_space t : all_space t = true → lstrip t = EmptyString.
Proof.
  induction t as [|c s IH]; simpl; [done|].
  intros H. apply andb_true_iff in H as [-> Hs]. by apply IH.
Qed.

Lemma strip_all_space t : all_space t = true → strip t = EmptyString.
Proof. intros H. unfold strip. by rewrite lstrip_all_space. Qed.

(** X15: a heading that is present but blank gives the record the empty
    name, not ["N/A"]: the default is applied only when the heading is
    missing. *)
Theorem blank_heading_gives_empty_name
    (float : string → option PrimFloat.float) (web : string → page) (place_url : string)
    (results : list Restaurant) (l : layout) (t : string) :
  web place_url = page_of_layout l →
  name_text l = Some t → all_space t = true →
  ∃ r, visit float web place_url results = Ret (results ++ [r]) ∧
    name r = EmptyString ∧ name r ≠ NA.
Proof.
  intros Hpage Hname Hblank.
  exists (record_of_layout float place_url l). split; [|split].
  - unfold visit. rewrite Hpage, extract_fields_layout. reflexivity.
  - simpl. rewrite Hname. simpl. by apply strip_all_space.
  - simpl. rewrite Hname. simpl. by rewrite strip_all_space.
Qed.

Lemma blank_heading_gives_empty_name_witness :
  ∃ r, visit decimal_literal named_page "  " [] = Ret ([] ++ [r]) ∧
    name r = EmptyString ∧ name r ≠ NA.
Proof.
  apply (blank_heading_gives_empty_name decimal_literal named_page "  " []
           (mkLayout (Some "  ") None None None None None None) "  ");
    reflexivity.
Defined.

(** X16: [safe_find_text] never lets [NoSuchElementException] out.  It
    returns the default when the element is missing and when its text is
    blank, and with a default that is not empty it never returns the empty
    string.  Any other exception of the driver is passed on. *)
Theorem safe_find_text_default
    (driver : string → result element) (css_selector default : string) :
  safe_find_text driver css_selector default ≠ Raise NoSuchElementException ∧
  (driver css_selector = Raise NoSuchElementException →
     safe_find_text driver css_selector default = Ret default) ∧
  (∀ el t, driver css_selector = Ret el → text el = Ret t →
     all_space t = true →
     safe_find_text driver css_selector default = Ret default) ∧
  (∀ s, safe_find_text driver css_selector default = Ret s →
     truthy default = true → truthy s = true) ∧
  (∀ e, e ≠ NoSuchElementException →
     driver css_selector = Raise e →
     safe_find_text driver css_selector default = Raise e).
Proof.
  unfold safe_find_text.
  split; [|split; [|split; [|split]]].
  - destruct (driver css_selector) as [el|e]; simpl.
    + destruct (text el) as [t|e]; simpl; [done|].
      case_decide as Hin; [done|]. intros [= ->]. apply Hin. by left.
    + case_decide as Hin; [done|]. intros [= ->]. apply Hin. by left.
  - by intros ->.
  - intros el t -> Ht Hblank. simpl. rewrite Ht. simpl.
    by rewrite strip_all_space.
  - intros s H Hdef.
    destruct (driver css_selector) as [el|e]; simpl in H.
    + destruct (text el) as [t|e]; simpl in H.
      * injection H as <-. by destruct (truthy (strip t)) eqn:Hs.
      * case_decide; [|done]. by injection H as <-.
    + case_decide; [|done]. by injection H as <-.
  - intros e He ->. simpl. case_decide as Hin; [|done].
    by apply list_elem_of_singleton in Hin.
Qed.

(** ** Ranking again *)


(** X18: what a tie is.  Two records without a rating tie when their review
    counts are equal.  Two rated records tie when their ratings are equal and
    their review counts are equal, and also whenever one of the two ratings
    is NaN, whatever the review counts.  A rated and an unrated record never
    tie, and no other field takes part. *)
Theorem tied_iff_same_rating_and_count (a b : Restaurant) :
  tied a b ↔
  match rating a, rating b with
  | Some xa, Some xb =>
      is_nan xa = true ∨ is_nan xb = true ∨
      ((xa =? xb)%float = true ∧ review_count a = review_count b)
  | None, None => review_count a = review_count b
  | _, _ => False
  end.
Proof.
  unfold tied.
  destruct (nan_rating a) eqn:Ha; [|destruct (nan_rating b) eqn:Hb].
  - unfold nan_rating in Ha. unfold sort_key, key_lt.
    destruct (rating a) as [xa|]; [|done].
    destruct (rating b) as [xb|]; simpl; [|naive_solver].
    pose proof (proj1 (rating_or_zero xa)) as Hn. rewrite Ha in Hn.
    destruct (nan_compares _ (if float_truthy xb then xb else 0%float)
                (or_introl Hn)) as [-> ->].
    destruct (nan_compares (if float_truthy xb then xb else 0%float) _
                (or_intror Hn)) as [-> ->].
    simpl. naive_solver.
  - unfold nan_rating in Hb. unfold sort_key, key_lt.
    destruct (rating b) as [xb|]; [|done].
    destruct (rating a) as [xa|]; simpl; [|naive_solver].
    pose proof (proj1 (rating_or_zero xb)) as Hn. rewrite Hb in Hn.
    destruct (nan_compares (if float_truthy xa then xa else 0%float) _
                (or_intror Hn)) as [-> ->].
    destruct (nan_compares _ (if float_truthy xa then xa else 0%float)
                (or_introl Hn)) as [-> ->].
    simpl. naive_solver.
  - rewrite (key_lt_rank _ _ (sort_key_ok a Ha) (sort_key_ok b Hb)).
    rewrite (key_lt_rank _ _ (sort_key_ok b Hb) (sort_key_ok a Ha)).
    rewrite (lexcmp_antisym (key_rank (sort_key a)) (key_rank (sort_key b))).
    unfold nan_rating in Ha, Hb. unfold sort_key, key_rank.
    destruct (rating a) as [xa|], (rating b) as [xb|]; simpl.
    + rewrite (proj2 (rating_or_zero xa) Ha), (proj2 (rating_or_zero xb) Hb).
      destruct (float_compares xa xb Ha Hb) as [-> _].
      rewrite Ha, Hb. rewrite is_nan_Prim2SF in Ha, Hb.
      rewrite lexcmp_app by (by rewrite !sf_rank_length).
      destruct (lexcmp (sf_rank (Prim2SF xa)) (sf_rank (Prim2SF xb)));
        simpl; [|naive_solver..].
      destruct (Z.compare_spec (review_count a) (review_count b));
        simpl; naive_solver lia.
    + naive_solver.
    + naive_solver.
    + destruct (Z.compare_spec (review_count a) (review_count b));
        simpl; naive_solver lia.
Qed.

(** ** The sheet *)

(** X19: the sheet has the header row, one row per record in the order
    given, and the summary row last.  Row [i] of the data carries the number
    [i] counted from 1 in its first cell, whatever the record holds; each
    data row has nine cells; the summary row holds the number of records. *)
Theorem export_to_excel_layout (data : list Restaurant) :
  length (export_to_excel data) = length data + 2 ∧
  export_to_excel data !! 0 = Some headers ∧
  (∀ i r, data !! i = Some r →
     export_to_excel data !! (S i) = Some (data_row (i + 2) r) ∧
     data_row (i + 2) r !! 0 = Some (Int (Z.of_nat (S i))) ∧
     length (data_row (i + 2) r) = 9) ∧
  export_to_excel data !! (S (length data)) = Some (summary_row data) ∧
  summary_row data !! 1 = Some (Int (Z.of_nat (length data))).
Proof.
  unfold export_to_excel.
  split; [|split; [done|split; [|split; [|done]]]].
  - simpl. rewrite length_app, length_imap. simpl. lia.
  - intros i r Hi. split; [|split; [|done]].
    + simpl. rewrite lookup_app_l.
      * by rewrite list_lookup_imap, Hi.
      * rewrite length_imap. by eapply lookup_lt_Some.
    + simpl. do 2 f_equal. lia.
  - simpl. rewrite lookup_app_r by (rewrite length_imap; lia).
    rewrite length_imap, Nat.sub_diag. done.
Qed.

(** ** The mean of the summary row *)

(** X20: the division is guarded.  When no record has a rating that counts
    (each rating is missing or zero), the divisor is 1, not 0: the mean is
    the float 0.0, not the NaN that 0.0 / 0.0 is, and 0.0 is the value
    written to the summary row. *)
Theorem avg_rating_no_rating (data : list Restaurant) :
  Forall (λ r, rating_truthy r = false) data →
  avg_rating data = 0%float ∧ round2 (avg_rating data) = 0%float ∧
  avg_rating data ≠ (0 / 0)%float.
Proof.
  intros Hall.
  assert (filter (λ r, rating_truthy r = true) data = []) as Hnil.
  { induction Hall as [|r t Hr _ IH]; [done|].
    rewrite filter_cons_False by (rewrite Hr; done). exact IH. }
  assert (avg_rating data = 0%float) as ->.
  { unfold avg_rating, sum_ratings, count_ratings. by rewrite Hnil. }
  split; [done|]. split; [done|]. vm_compute. discriminate.
Qed.

Lemma avg_rating_no_rating_witness :
  avg_rating [default_restaurant; set_rating (Some 0%float) default_restaurant]
    = 0%float ∧
  round2 (avg_rating [default_restaurant;
                      set_rating (Some 0%float) default_restaurant]) = 0%float ∧
  avg_rating [default_restaurant; set_rating (Some 0%float) default_restaurant]
    ≠ (0 / 0)%float.
Proof.
  apply (avg_rating_no_rating
           [default_restaurant; set_rating (Some 0%float) default_restaurant]).
  repeat constructor.
Defined.

(** ** The entry point *)

(** X23: a run of [main] that returns either does nothing after the scrape
    or sorts the catalog and saves one sheet, under [OUTPUT_FILE]: the export
    of the ranked catalog, with one data row per scraped record. *)
Theorem main_saves_ranked_catalog
    (float : string → option PrimFloat.float) (fuel : nat) (b : browser)
    (events : list event) :
  main float fuel b = Some (Ret events) →
  events = [] ∨
  ∃ raw_data, raw_data ≠ [] ∧
    scrape_google_maps float fuel b SEARCH_QUERY MAX_RESULTS = Some (Ret raw_data) ∧
    events = [SortCalled raw_data;
              Saved OUTPUT_FILE (export_to_excel (sort_results raw_data))] ∧
    length (export_to_excel (sort_results raw_data)) = length raw_data + 2.
Proof.
  intros H. destruct (main_saved_report float fuel b events H)
    as [->|(raw & Hne & Hs & ->)]; [by left|].
  right. exists raw. split; [done|]. split; [done|]. split; [done|].
  unfold export_to_excel. simpl.
  rewrite length_app, length_imap. simpl.
  pose proof (py_sorted_reverse_Permutation key_lt sort_key raw) as Hp.
  apply Permutation_length in Hp. fold (sort_results raw) in Hp. lia.
Qed.

Lemma main_saves_ranked_catalog_witness :
  [SortCalled [set_name "u1" (set_maps_url "u1" default_restaurant);
               set_name "u2" (set_maps_url "u2" default_restaurant)];
   Saved OUTPUT_FILE (export_to_excel (sort_results
     [set_name "u1" (set_maps_url "u1" default_restaurant);
      set_name "u2" (set_maps_url "u2" default_restaurant)]))] = [] ∨
  ∃ raw_data, raw_data ≠ [] ∧
    scrape_google_maps decimal_literal 10 small_browser SEARCH_QUERY MAX_RESULTS
      = Some (Ret raw_data) ∧
    [SortCalled [set_name "u1" (set_maps_url "u1" default_restaurant);
                 set_name "u2" (set_maps_url "u2" default_restaurant)];
     Saved OUTPUT_FILE (export_to_excel (sort_results
       [set_name "u1" (set_maps_url "u1" default_restaurant);
        set_name "u2" (set_maps_url "u2" default_restaurant)]))]
      = [SortCalled raw_data;
         Saved OUTPUT_FILE (export_to_excel (sort_results raw_data))] ∧
    length (export_to_excel (sort_results raw_data)) = length raw_data + 2.
Proof.
  apply (main_saves_ranked_catalog decimal_literal 10 small_browser).
  vm_compute. reflexivity.
Defined.
